(** * EuroJackpot record-keeping API: a shallow embedding and its properties

    The development follows the three source files:
    - [schemas.py]  : the [Draw] and [Prediction] models and their validators;
    - [database.py] : [create_document] and [get_documents];
    - [main.py]     : [count_matches] and the HTTP handlers.

    Modelling conventions.
    - Python [str] is [string]; a character is a code point below 256.
    - Python values are the inductive [value]; a document is a
      [gmap string value].
    - Handlers run in a state-and-exception monad over the store; a raised
      exception keeps the writes made before it.
    - The behaviour of the libraries the program calls is either embedded
      (text methods, [int], [csv.reader]) or kept as a parameter through the
      classes [Pydantic] and [Mongo], each with a reference instance.
    - The store accepts every document handed to [insert_one], and the
      response models [DrawOut]/[PredictionOut] are left out: a handler is
      modelled up to the document it hands to its response model. *)

From stdpp Require Import gmap strings list fin_maps sorting.
From Stdlib Require Import ZArith Ascii String Lia.

Open Scope string_scope.
Open Scope list_scope.
Open Scope Z_scope.

(** ** Python text primitives *)

Module PyStr.

Definition code (c : ascii) : N := N_of_ascii c.

Definition LF : ascii := ascii_of_N 10.
Definition CR : ascii := ascii_of_N 13.

(** Characters for which [str.isspace] holds (code points below 256). *)
Definition is_space (c : ascii) : bool :=
  let n := code c in
  ((9 <=? n) && (n <=? 13) || (28 <=? n) && (n <=? 32)
   || (n =? 133) || (n =? 160))%N.

(** Line boundaries of [str.splitlines] (code points below 256). *)
Definition is_linebreak (c : ascii) : bool :=
  let n := code c in
  ((10 <=? n) && (n <=? 13) || (28 <=? n) && (n <=? 30) || (n =? 133))%N.

Definition is_empty (s : string) : bool :=
  match s with EmptyString => true | String _ _ => false end.

Fixpoint lstrip (s : string) : string :=
  match s with
  | EmptyString => EmptyString
  | String c s' => if is_space c then lstrip s' else s
  end.

Fixpoint rstrip (s : string) : string :=
  match s with
  | EmptyString => EmptyString
  | String c s' =>
      let r := rstrip s' in
      if is_space c && is_empty r then EmptyString else String c r
  end.

(** [s.strip()] *)
Definition strip (s : string) : string := rstrip (lstrip s).

Definition lower_char (c : ascii) : ascii :=
  let n := code c in
  if ((65 <=? n) && (n <=? 90)
      || (192 <=? n) && (n <=? 222) && negb (n =? 215))%N
  then ascii_of_N (n + 32) else c.

(** [s.lower()] *)
Fixpoint lower (s : string) : string :=
  match s with
  | EmptyString => EmptyString
  | String c s' => String (lower_char c) (lower s')
  end.

(** Prepends a character to the first piece of a list of pieces. *)
Definition cons_first (c : ascii) (ws : list string) : list string :=
  match ws with
  | [] => [String c EmptyString]
  | w :: ws' => String c w :: ws'
  end.

(** [s.split(sep)] for a one-character separator. *)
Fixpoint split (sep : ascii) (s : string) : list string :=
  match s with
  | EmptyString => [EmptyString]
  | String c s' =>
      if Ascii.eqb c sep then EmptyString :: split sep s'
      else cons_first c (split sep s')
  end.

Definition starts_token (s : string) : bool :=
  match s with
  | EmptyString => false
  | String c _ => negb (is_space c)
  end.

(** [s.split()]: the whitespace-separated tokens. *)
Fixpoint split_ws (s : string) : list string :=
  match s with
  | EmptyString => []
  | String c s' =>
      if is_space c then split_ws s'
      else if starts_token s' then cons_first c (split_ws s')
      else String c EmptyString :: split_ws s'
  end.

(** [s.splitlines()] *)
Fixpoint splitlines (s : string) : list string :=
  match s with
  | EmptyString => []
  | String c s' =>
      if is_linebreak c then
        match s' with
        | String c2 s'' =>
            if Ascii.eqb c CR && Ascii.eqb c2 LF
            then EmptyString :: splitlines s''
            else EmptyString :: splitlines s'
        | EmptyString => [EmptyString]
        end
      else cons_first c (splitlines s')
  end.

(** Iterating [io.StringIO(s)]: lines end at a line feed only and keep it. *)
Fixpoint io_lines (s : string) : list string :=
  match s with
  | EmptyString => []
  | String c s' =>
      if Ascii.eqb c LF then String c EmptyString :: io_lines s'
      else cons_first c (io_lines s')
  end.

Definition digit_val (c : ascii) : option Z :=
  let n := code c in
  if ((48 <=? n) && (n <=? 57))%N then Some (Z.of_N n - 48) else None.

Definition underscore : ascii := ascii_of_N 95.

(** Digits with single underscores between them; returns the value and the
    number of digit characters. [prev_us] is set after an underscore and at
    the start, where no underscore may follow. *)
Fixpoint parse_digits (s : string) (prev_us : bool) (acc : Z) (n : nat)
  : option (Z * nat) :=
  match s with
  | EmptyString => if prev_us then None else Some (acc, n)
  | String c s' =>
      if Ascii.eqb c underscore then
        if prev_us then None else parse_digits s' true acc n
      else
        match digit_val c with
        | Some d => parse_digits s' false (10 * acc + d) (S n)
        | None => None
        end
  end.

(** The interpreter's limit on the digits of a decimal string. *)
Definition max_str_digits : nat := 4300.

(** [int(s)] for a [str] argument, base 10; [None] stands for [ValueError]. *)
Definition int (s : string) : option Z :=
  let t := strip s in
  let '(neg, body) :=
    match t with
    | String c t' =>
        if Ascii.eqb c (ascii_of_N 45) then (true, t')
        else if Ascii.eqb c (ascii_of_N 43) then (false, t')
        else (false, t)
    | EmptyString => (false, t)
    end in
  match parse_digits body true 0 0 with
  | Some (z, n) =>
      if (max_str_digits <? n)%nat then None
      else Some (if neg then - z else z)
  | None => None
  end.

End PyStr.

(** ** [csv.reader] over [io.StringIO], default dialect

    The reader of the standard library with the "excel" dialect: delimiter
    comma, the double quote as quote character, doubled quotes, no escape
    character, not strict. The states and transitions are those of the
    reader's character automaton; the two escape states cannot be reached
    without an escape character and are left out. NUL characters are
    ordinary characters. *)

Module Csv.
Import PyStr.

Inductive pstate :=
| START_RECORD | START_FIELD | IN_FIELD | IN_QUOTED_FIELD
| QUOTE_IN_QUOTED_FIELD | EAT_CRNL.

Inductive error :=
| FieldTooLarge          (* "field larger than field limit (131072)" *)
| NewlineInUnquotedField (* "new-line character seen in unquoted field" *).

Record reader := mkReader {
  state : pstate;
  fields : list string;     (* fields of the record read so far *)
  field : list ascii;       (* current field, last character first *)
}.

Definition field_limit : N := 131072.

Definition delimiter : ascii := ascii_of_N 44.
Definition quotechar : ascii := ascii_of_N 34.

Definition parse_reset : reader := mkReader START_RECORD [] [].

Definition set_state (s : pstate) (r : reader) : reader :=
  mkReader s (fields r) (field r).

Definition parse_save_field (r : reader) : reader :=
  mkReader (state r)
           (fields r ++ [string_of_list_ascii (rev (field r))]) [].

Definition parse_add_char (r : reader) (c : ascii) : reader + error :=
  if (field_limit <=? N.of_nat (List.length (field r)))%N
  then inr FieldTooLarge
  else inl (mkReader (state r) (fields r) (c :: field r)).

Definition is_newline (c : ascii) : bool := Ascii.eqb c LF || Ascii.eqb c CR.

Definition start_field (r : reader) (c : option ascii) : reader + error :=
  match c with
  | None => inl (set_state START_RECORD (parse_save_field r))
  | Some c =>
      if is_newline c then inl (set_state EAT_CRNL (parse_save_field r))
      else if Ascii.eqb c quotechar then inl (set_state IN_QUOTED_FIELD r)
      else if Ascii.eqb c delimiter then inl (parse_save_field r)
      else match parse_add_char r c with
           | inl r' => inl (set_state IN_FIELD r')
           | inr e => inr e
           end
  end.

(** One step of the automaton; [None] is the end-of-line marker fed after
    the last character of each line. *)
Definition parse_process_char (r : reader) (c : option ascii)
  : reader + error :=
  match state r with
  | START_RECORD =>
      match c with
      | None => inl r
      | Some ch =>
          if is_newline ch then inl (set_state EAT_CRNL r)
          else start_field (set_state START_FIELD r) c
      end
  | START_FIELD => start_field r c
  | IN_FIELD =>
      match c with
      | None => inl (set_state START_RECORD (parse_save_field r))
      | Some ch =>
          if is_newline ch then inl (set_state EAT_CRNL (parse_save_field r))
          else if Ascii.eqb ch delimiter
               then inl (set_state START_FIELD (parse_save_field r))
          else parse_add_char r ch
      end
  | IN_QUOTED_FIELD =>
      match c with
      | None => inl r
      | Some ch =>
          if Ascii.eqb ch quotechar then inl (set_state QUOTE_IN_QUOTED_FIELD r)
          else parse_add_char r ch
      end
  | QUOTE_IN_QUOTED_FIELD =>
      match c with
      | None => inl (set_state START_RECORD (parse_save_field r))
      | Some ch =>
          if Ascii.eqb ch quotechar then
            match parse_add_char r ch with
            | inl r' => inl (set_state IN_QUOTED_FIELD r')
            | inr e => inr e
            end
          else if Ascii.eqb ch delimiter
               then inl (set_state START_FIELD (parse_save_field r))
          else if is_newline ch
               then inl (set_state EAT_CRNL (parse_save_field r))
          else match parse_add_char r ch with
               | inl r' => inl (set_state IN_FIELD r')
               | inr e => inr e
               end
      end
  | EAT_CRNL =>
      match c with
      | None => inl (set_state START_RECORD r)
      | Some ch =>
          if is_newline ch then inl r else inr NewlineInUnquotedField
      end
  end.

(** Feeds the characters of one line, then the end-of-line marker. *)
Fixpoint feed_line (r : reader) (line : string) : reader + error :=
  match line with
  | EmptyString => parse_process_char r None
  | String c line' =>
      match parse_process_char r (Some c) with
      | inl r' => feed_line r' line'
      | inr e => inr e
      end
  end.

Definition in_quoted (r : reader) : bool :=
  match state r with IN_QUOTED_FIELD => true | _ => false end.

Definition at_start (r : reader) : bool :=
  match state r with START_RECORD => true | _ => false end.

(** The rows the reader yields from the given lines, in order, and the
    error that ends the iteration, if any. A record spans several lines
    while the automaton stays inside a quoted field; when the input ends
    there, the pending field closes the last row. *)
Fixpoint read_rows (r : reader) (lines : list string)
  : list (list string) * option error :=
  match lines with
  | [] =>
      if negb (Nat.eqb (List.length (field r)) 0) || in_quoted r
      then ([fields (parse_save_field r)], None)
      else ([], None)
  | l :: ls =>
      match feed_line r l with
      | inr e => ([], Some e)
      | inl r' =>
          if at_start r' then
            let '(rows, e) := read_rows parse_reset ls in
            (fields r' :: rows, e)
          else read_rows r' ls
      end
  end.

(** [csv.reader(io.StringIO(s))], iterated to its end or to its error. *)
Definition reader_rows (s : string) : list (list string) * option error :=
  read_rows parse_reset (io_lines s).

End Csv.

(** ** Python values, documents and exceptions *)

(** [datetime.date] *)
Record date := mkdate { year : Z; month : Z; day : Z }.

#[global] Instance date_eq_dec : EqDecision date.
Proof. solve_decision. Defined.

(** Chronological order. *)
Definition date_leb (a b : date) : bool :=
  (year a <? year b)
  || (year a =? year b)
     && ((month a <? month b)
         || (month a =? month b) && (day a <=? day b)).

(** The values the program handles: JSON input, model fields and stored
    document fields. [VDatetime] counts time in clock units; [VObjectId] is a
    store identifier. *)
#[warnings="-register-all"]
Inductive value :=
| VNone
| VBool (b : bool)
| VInt (z : Z)
| VStr (s : string)
| VDate (d : date)
| VDatetime (t : N)
| VObjectId (n : N)
| VList (l : list value)
| VDict (d : gmap string value).

(** A Python [dict] with string keys: keyword arguments, documents, filters. *)
Abbreviation doc := (gmap string value).

(** [d.get(k, default)] *)
Definition dict_get (d : doc) (k : string) (default : value) : value :=
  match d !! k with Some v => v | None => default end.

(** Hashable values as set elements. *)
Inductive atom :=
| ANone
| AInt (z : Z)
| AStr (s : string)
| ADate (d : date)
| ADatetime (t : N)
| AObjectId (n : N).

#[global] Instance atom_eq_dec : EqDecision atom.
Proof. solve_decision. Defined.

Definition atom_enc (a : atom)
  : unit + Z + string + (Z * Z * Z) + N + N :=
  match a with
  | ANone => inl (inl (inl (inl (inl tt))))
  | AInt z => inl (inl (inl (inl (inr z))))
  | AStr s => inl (inl (inl (inr s)))
  | ADate d => inl (inl (inr (year d, month d, day d)))
  | ADatetime t => inl (inr t)
  | AObjectId n => inr n
  end.

Definition atom_dec (x : unit + Z + string + (Z * Z * Z) + N + N) : atom :=
  match x with
  | inl (inl (inl (inl (inl _)))) => ANone
  | inl (inl (inl (inl (inr z)))) => AInt z
  | inl (inl (inl (inr s))) => AStr s
  | inl (inl (inr (y, m, d))) => ADate (mkdate y m d)
  | inl (inr t) => ADatetime t
  | inr n => AObjectId n
  end.

#[global] Instance atom_countable : Countable atom.
Proof.
  apply (inj_countable' atom_enc atom_dec).
  intros [ | | | [] | | ]; reflexivity.
Defined.

(** The set element a value stands for; [None] for the unhashable [list] and
    [dict]. [True] and [False] are the elements [1] and [0]. *)
Definition hashable (v : value) : option atom :=
  match v with
  | VNone => Some ANone
  | VBool b => Some (AInt (if b then 1 else 0))
  | VInt z => Some (AInt z)
  | VStr s => Some (AStr s)
  | VDate d => Some (ADate d)
  | VDatetime t => Some (ADatetime t)
  | VObjectId n => Some (AObjectId n)
  | VList _ | VDict _ => None
  end.

(** Errors of one field in a pydantic [ValidationError]. *)
Inductive reason :=
| missing                     (* required field absent *)
| bad_type                    (* input not coercible to the field's type *)
| too_short
| too_long
| value_error (msg : string)  (* [ValueError] raised by a field validator *).

Record field_error := mkFieldError { loc : string; why : reason }.

Inductive exn :=
| ValidationError (errs : list field_error)
| ValueError
| IndexError
| TypeError
| KeyError
| CsvError (e : Csv.error)
| HTTPException (status_code : Z) (detail : string).

Inductive outcome (A : Type) :=
| Ok (a : A)
| Raise (e : exn).
Arguments Ok {A} a.
Arguments Raise {A} e.

(** ** Calendar dates in year-month-day form *)

Definition is_leap (y : Z) : bool :=
  (y mod 4 =? 0) && (negb (y mod 100 =? 0) || (y mod 400 =? 0)).

Definition days_in_month (y m : Z) : Z :=
  if m =? 2 then (if is_leap y then 29 else 28)
  else if (m =? 4) || (m =? 6) || (m =? 9) || (m =? 11) then 30
  else 31.

Definition valid_ymd (y m d : Z) : bool :=
  (1 <=? y) && (1 <=? m) && (m <=? 12) && (1 <=? d)
  && (d <=? days_in_month y m).

Definition hyphen : ascii := ascii_of_N 45.

(** Reads [YYYY-MM-DD]. *)
Definition parse_iso_date (s : string) : option date :=
  match s with
  | String y1 (String y2 (String y3 (String y4 (String h1
      (String m1 (String m2 (String h2
        (String d1 (String d2 EmptyString))))))))) =>
      if Ascii.eqb h1 hyphen && Ascii.eqb h2 hyphen then
        a ← PyStr.digit_val y1; b ← PyStr.digit_val y2;
        c ← PyStr.digit_val y3; d ← PyStr.digit_val y4;
        e ← PyStr.digit_val m1; f ← PyStr.digit_val m2;
        g ← PyStr.digit_val d1; h ← PyStr.digit_val d2;
        let y := 1000 * a + 100 * b + 10 * c + d in
        let m := 10 * e + f in
        let d := 10 * g + h in
        if valid_ymd y m d then Some (mkdate y m d) else None
      else None
  | _ => None
  end.

(** ** schemas.py *)

(** Type coercion as pydantic performs it before the field validators run.
    What it does with each kind of input is the library's business and stays
    a parameter; the three laws are the cases the handlers rely on when they
    build a [Draw] from values they have already converted. *)
Class Pydantic := {
  int_validator : value → option Z;
  list_validator : value → option (list value);
  date_validator : value → option date;
  str_validator : value → option string;
  int_validator_int : ∀ z, int_validator (VInt z) = Some z;
  list_validator_list : ∀ l, list_validator (VList l) = Some l;
  date_validator_iso :
    ∀ s d, parse_iso_date s = Some d → date_validator (VStr s) = Some d;
}.

Record Draw := mkDraw {
  draw_date : date;
  draw_main : list Z;
  draw_euro : list Z;
  draw_source : option string;
}.

Record Prediction := mkPrediction {
  pred_main : list Z;
  pred_euro : list Z;
  pred_seed : option string;
  pred_method : string;
  pred_notes : option string;
}.

(** [len(set(v))] *)
Definition len_set (v : list Z) : nat := size (list_to_set v : gset Z).

(** [all(lo <= n <= hi for n in v)] *)
Definition all_in (lo hi : Z) (v : list Z) : bool :=
  forallb (λ n, (lo <=? n) && (n <=? hi)) v.

(** The field validators; [inl msg] is the [ValueError] they raise. *)
Definition validate_main (v : list Z) : string + list Z :=
  if negb (Nat.eqb (len_set v) 5)
  then inl "Main numbers must be unique and length 5"
  else if negb (all_in 1 50 v) then inl "Main numbers must be in 1..50"
  else inr v.

Definition validate_euro (v : list Z) : string + list Z :=
  if negb (Nat.eqb (len_set v) 2)
  then inl "Euro numbers must be unique and length 2"
  else if negb (all_in 1 12 v) then inl "Euro numbers must be in 1..12"
  else inr v.

Definition v_main (v : list Z) : string + list Z :=
  if negb (Nat.eqb (len_set v) 5) || negb (all_in 1 50 v)
  then inl "Main numbers invalid" else inr v.

Definition v_euro (v : list Z) : string + list Z :=
  if negb (Nat.eqb (len_set v) 2) || negb (all_in 1 12 v)
  then inl "Euro numbers invalid" else inr v.

Section Schemas.
Context {P : Pydantic}.

(** A field of type [List[int]] with [min_items = max_items = n] and a field
    validator that runs after the type and length checks. *)
Definition int_list_field (n : nat) (validator : list Z → string + list Z)
    (v : value) : reason + list Z :=
  match list_validator v with
  | None => inl bad_type
  | Some items =>
      match mapM int_validator items with
      | None => inl bad_type
      | Some zs =>
          if (List.length zs <? n)%nat then inl too_short
          else if (n <? List.length zs)%nat then inl too_long
          else match validator zs with
               | inl msg => inl (value_error msg)
               | inr zs' => inr zs'
               end
      end
  end.

Definition date_field (v : value) : reason + date :=
  match date_validator v with
  | Some d => inr d
  | None => inl bad_type
  end.

(** A field of type [Optional[str]]. *)
Definition opt_str_field (v : value) : reason + option string :=
  match v with
  | VNone => inr None
  | _ => match str_validator v with
         | Some s => inr (Some s)
         | None => inl bad_type
         end
  end.

Definition str_field (v : value) : reason + string :=
  match str_validator v with
  | Some s => inr s
  | None => inl bad_type
  end.

(** A required field, [Field(...)], read from the keyword arguments. *)
Definition required {A} (kw : doc) (name : string)
    (check : value → reason + A) : field_error + A :=
  match kw !! name with
  | None => inl (mkFieldError name missing)
  | Some v =>
      match check v with
      | inl r => inl (mkFieldError name r)
      | inr a => inr a
      end
  end.

(** A field with a default, used when the keyword is absent. *)
Definition optional {A} (kw : doc) (name : string) (default : A)
    (check : value → reason + A) : field_error + A :=
  match kw !! name with
  | None => inr default
  | Some v =>
      match check v with
      | inl r => inl (mkFieldError name r)
      | inr a => inr a
      end
  end.

Definition errors_of {A} (r : field_error + A) : list field_error :=
  match r with inl e => [e] | inr _ => [] end.

(** [Draw] called with keyword arguments [kw]: every field is checked and
    the errors of all fields are reported together. *)
Definition Draw_new (kw : doc) : outcome Draw :=
  let d := required kw "date" date_field in
  let m := required kw "main" (int_list_field 5 validate_main) in
  let e := required kw "euro" (int_list_field 2 validate_euro) in
  let s := optional kw "source" None opt_str_field in
  match d, m, e, s with
  | inr d', inr m', inr e', inr s' => Ok (mkDraw d' m' e' s')
  | _, _, _, _ =>
      Raise (ValidationError
               (errors_of d ++ errors_of m ++ errors_of e ++ errors_of s))
  end.

(** [Prediction] called with keyword arguments [kw]. *)
Definition Prediction_new (kw : doc) : outcome Prediction :=
  let m := required kw "main" (int_list_field 5 v_main) in
  let e := required kw "euro" (int_list_field 2 v_euro) in
  let s := optional kw "seed" None opt_str_field in
  let t := optional kw "method" "consensus" str_field in
  let n := optional kw "notes" None opt_str_field in
  match m, e, s, t, n with
  | inr m', inr e', inr s', inr t', inr n' =>
      Ok (mkPrediction m' e' s' t' n')
  | _, _, _, _, _ =>
      Raise (ValidationError
               (errors_of m ++ errors_of e ++ errors_of s
                ++ errors_of t ++ errors_of n))
  end.

End Schemas.

Definition opt_str_value (s : option string) : value :=
  match s with Some x => VStr x | None => VNone end.

Definition int_list_value (l : list Z) : value := VList (VInt <$> l).

(** [draw.model_dump()] *)
Definition Draw_model_dump (d : Draw) : doc :=
  <["source" := opt_str_value (draw_source d)]>
    (<["euro" := int_list_value (draw_euro d)]>
       (<["main" := int_list_value (draw_main d)]>
          (<["date" := VDate (draw_date d)]> ∅))).

(** [pred.model_dump()] *)
Definition Prediction_model_dump (p : Prediction) : doc :=
  <["notes" := opt_str_value (pred_notes p)]>
    (<["method" := VStr (pred_method p)]>
       (<["seed" := opt_str_value (pred_seed p)]>
          (<["euro" := int_list_value (pred_euro p)]>
             (<["main" := int_list_value (pred_main p)]> ∅)))).

(** ** database.py *)

(** The store and the two sources of fresh data the gateway reads: the
    identifier generator and the UTC clock. A collection keeps its documents
    in insertion order, each under its identifier. [clock] is the reading the
    next call of [_now] returns; [ticks] lists by how much the clock advances
    after each coming reading (not at all once the list is used up). *)
Record db := mkDb {
  collections : gmap string (list (N * doc));
  next_oid : N;
  clock : N;
  ticks : list N;
}.

(** State and exceptions; the state reached when an exception is raised is
    kept. *)
Definition M (A : Type) : Type := db → outcome A * db.

Definition ret {A} (a : A) : M A := λ st, (Ok a, st).

Definition raise {A} (e : exn) : M A := λ st, (Raise e, st).

Definition bind {A B} (c : M A) (k : A → M B) : M B :=
  λ st, match c st with
        | (Ok a, st') => k a st'
        | (Raise e, st') => (Raise e, st')
        end.

Notation "x <- c ;; k" := (bind c (λ x, k))
  (at level 100, c at next level, right associativity).

Definition lift {A} (o : outcome A) : M A :=
  match o with Ok a => ret a | Raise e => raise e end.

(** [try: c except Exception as e: h e] *)
Definition try_catch {A} (c : M A) (h : exn → M A) : M A :=
  λ st, match c st with
        | (Ok a, st') => (Ok a, st')
        | (Raise e, st') => h e st'
        end.

(** The document a stored entry reads as: its fields and its [_id]. *)
Definition view (p : N * doc) : doc := <["_id" := VObjectId p.1]> p.2.

Definition coll (st : db) (name : string) : list doc :=
  view <$> (collections st !!! name).

(** Truth value of a [dict]: non-empty. *)
Definition truthy_dict (d : doc) : bool := negb (Nat.eqb (size d) 0).

(** Truth value of the result of [find_one]. *)
Definition truthy (o : option doc) : bool :=
  match o with Some d => truthy_dict d | None => false end.

(** Query evaluation by the store. The matching of a filter, the order of
    field values and the cursor operations stay parameters; the laws are the
    facts about them the handlers rely on: the empty filter matches every
    document, an equality filter on a date matches a document that carries
    that date, the order of values is reflexive and is the chronological one
    on dates and on times, sorting permutes, and a descending sort on one key
    leaves no document before one with a greater key. The order among documents with
    equal keys is not fixed. *)
Class Mongo := {
  matches : doc → doc → bool;
  bson_le : option value → option value → bool;
  cursor_sort : list (string * Z) → list doc → list doc;
  cursor_limit : Z → list doc → list doc;
  matches_empty : ∀ d, matches ∅ d = true;
  matches_date : ∀ d x,
    d !! "date" = Some (VDate x) → matches {["date" := VDate x]} d = true;
  bson_le_refl : ∀ v, bson_le v v = true;
  bson_le_date : ∀ a b,
    bson_le (Some (VDate a)) (Some (VDate b)) = date_leb a b;
  bson_le_datetime : ∀ a b,
    bson_le (Some (VDatetime a)) (Some (VDatetime b)) = (a <=? b)%N;
  cursor_sort_perm : ∀ s l, cursor_sort s l ≡ₚ l;
  cursor_sort_desc : ∀ k l,
    StronglySorted (λ a b, bson_le (b !! k) (a !! k) = true)
                   (cursor_sort [(k, -1)] l);
}.

(** [_now()]: reads the clock, which then moves on. *)
Definition _now : M N :=
  λ st, (Ok (clock st),
         mkDb (collections st) (next_oid st)
              (clock st + hd 0%N (ticks st))%N (tl (ticks st))).

(** [coll.insert_one(doc)] for a document without an [_id] of its own: the
    document is stored under a newly generated identifier, which is
    returned. *)
Definition insert_one (name : string) (d : doc) : M N :=
  λ st, (Ok (next_oid st),
         mkDb (<[name := (collections st !!! name) ++ [(next_oid st, d)]]>
                 (collections st))
              (next_oid st + 1)%N (clock st) (ticks st)).

Definition create_document (collection_name : string) (data : doc) : M doc :=
  created_at <- _now ;;
  updated_at <- _now ;;
  let doc := <["updated_at" := VDatetime updated_at]>
               (<["created_at" := VDatetime created_at]> data) in
  inserted_id <- insert_one collection_name doc ;;
  ret (<["_id" := VObjectId inserted_id]> doc).

Section Database.
Context {G : Mongo}.

(** [coll.find(filter)] *)
Definition find (name : string) (f : doc) : M (list doc) :=
  λ st, (Ok (List.filter (matches f) (coll st name)), st).

(** [coll.find_one(filter, sort=sort)] *)
Definition find_one (name : string) (f : doc)
    (sort : option (list (string * Z))) : M (option doc) :=
  cursor <- find name f ;;
  ret (head (match sort with
             | Some s => cursor_sort s cursor
             | None => cursor
             end)).

(** [filter_dict or {}] *)
Definition or_empty (filter_dict : option doc) : doc :=
  match filter_dict with
  | Some d => if truthy_dict d then d else ∅
  | None => ∅
  end.

Definition get_documents (collection_name : string)
    (filter_dict : option doc) (limit : option Z)
    (sort : option (list (string * Z))) : M (list doc) :=
  cursor <- find collection_name (or_empty filter_dict) ;;
  let cursor :=
    match sort with
    | Some ((_ :: _) as s) => cursor_sort s cursor
    | _ => cursor
    end in
  let cursor :=
    match limit with
    | Some n => if n =? 0 then cursor else cursor_limit n cursor
    | None => cursor
    end in
  ret cursor.

End Database.

(** ** main.py *)

(** [set(v)]: the elements of a list, the characters of a string or the keys
    of a dict; [TypeError] for a value that cannot be iterated or an element
    that cannot be hashed. *)
Definition py_set (v : value) : outcome (gset atom) :=
  match v with
  | VList l =>
      match mapM hashable l with
      | Some atoms => Ok (list_to_set atoms)
      | None => Raise TypeError
      end
  | VStr s =>
      Ok (list_to_set
            ((λ c, AStr (String c EmptyString)) <$> list_ascii_of_string s))
  | VDict d => Ok (list_to_set (AStr <$> (map_to_list d).*1))
  | _ => Raise TypeError
  end.

(** The dict [{"main": .., "euro": .., "total": ..}]. *)
Record MatchResult := mkMatch { m_main : nat; m_euro : nat; m_total : nat }.

Definition MatchResult_value (m : MatchResult) : value :=
  VDict (<["total" := VInt (Z.of_nat (m_total m))]>
           (<["euro" := VInt (Z.of_nat (m_euro m))]>
              (<["main" := VInt (Z.of_nat (m_main m))]> ∅))).

Definition count_matches (pred draw : doc) : outcome MatchResult :=
  match py_set (dict_get pred "main" (VList [])),
        py_set (dict_get draw "main" (VList [])),
        py_set (dict_get pred "euro" (VList [])),
        py_set (dict_get draw "euro" (VList [])) with
  | Ok pm, Ok dm, Ok pe, Ok de =>
      let main_matches := size (pm ∩ dm) in
      let euro_matches := size (pe ∩ de) in
      Ok (mkMatch main_matches euro_matches (main_matches + euro_matches))
  | _, _, _, _ => Raise TypeError
  end.

(** Body of [POST /draws/bulk]. *)
Record BulkDraws := mkBulk {
  csv : option string;
  json : option (list value);
  text : option string;
}.

(** The key that names the position in an error descriptor. *)
Inductive position_key := row | json_index | line.

(** [{key: pos, "error": str(e)}]; the exception stands for its text. *)
Record descriptor := mkDescriptor {
  key : position_key;
  pos : nat;
  error : exn;
}.

(** [{"inserted": .., "errors": ..}]; an identifier stands for its text. *)
Record BulkResult := mkResult {
  inserted : list value;
  errors : list descriptor;
}.

(** Response of [GET /insights/latest]: [{"has_latest": False}] or the
    date of the latest draw with the matching predictions, each as its
    identifier and its match result. *)
Inductive Insights :=
| NoLatest
| HasLatest (latest_date : option value)
            (matched_predictions : list (value * MatchResult)).

(** [d[k]] *)
Definition getitem (d : doc) (k : string) : outcome value :=
  match d !! k with Some v => Ok v | None => Raise KeyError end.

(** Truth value of an optional [str] or [list]. *)
Definition nonempty_str (o : option string) : option string :=
  match o with
  | Some s => if PyStr.is_empty s then None else Some s
  | None => None
  end.

Definition nonempty_list {A} (o : option (list A)) : option (list A) :=
  match o with
  | Some ((_ :: _) as l) => Some l
  | _ => None
  end.

Definition is_header (cell : string) : bool :=
  let h := PyStr.lower (PyStr.strip cell) in
  String.eqb h "date" || String.eqb h "data".

Definition semicolon : ascii := ascii_of_N 59.

Section Handlers.
Context {P : Pydantic} {G : Mongo}.

(** [POST /draws] *)
Definition add_draw (draw : Draw) : M doc :=
  existing <- find_one "draw" {["date" := VDate (draw_date draw)]} None ;;
  if truthy existing
  then raise (HTTPException 409 "Draw for this date already exists")
  else create_document "draw" (Draw_model_dump draw).

(** [GET /draws] *)
Definition list_draws (limit : option Z) : M (list doc) :=
  get_documents "draw" (Some ∅) limit (Some [("date", -1)]).

(** [GET /predictions] *)
Definition list_predictions (limit : option Z) : M (list doc) :=
  get_documents "prediction" (Some ∅) limit (Some [("created_at", -1)]).

(** The [Draw] built from a csv row:
    [Draw(date=row[0], main=list(map(int, row[1:6])),
          euro=list(map(int, row[6:8])))]. *)
Definition draw_of_row (r : list string) : outcome Draw :=
  match r !! 0%nat with
  | None => Raise IndexError
  | Some c0 =>
      match mapM PyStr.int (take 5 (drop 1 r)) with
      | None => Raise ValueError
      | Some ms =>
          match mapM PyStr.int (take 2 (drop 6 r)) with
          | None => Raise ValueError
          | Some es =>
              Draw_new (<["euro" := int_list_value es]>
                          (<["main" := int_list_value ms]>
                             (<["date" := VStr c0]> ∅)))
          end
      end
  end.

(** The [Draw] built from an element of the json list. *)
Definition draw_of_item (item : value) : outcome Draw :=
  match item with
  | VDict kw => Draw_new kw
  | _ => Raise TypeError
  end.

(** The [Draw] built from a line of free text:
    [parts = [p.strip() for p in line.split(";")]], then
    [Draw(date=parts[0], main=list(map(int, parts[1].split()[:5])),
          euro=list(map(int, parts[2].split()[:2])))]. *)
Definition draw_of_line (l : string) : outcome Draw :=
  let parts := PyStr.strip <$> PyStr.split semicolon l in
  match parts !! 0%nat with
  | None => Raise IndexError
  | Some p0 =>
      match parts !! 1%nat with
      | None => Raise IndexError
      | Some p1 =>
          match mapM PyStr.int (take 5 (PyStr.split_ws p1)) with
          | None => Raise ValueError
          | Some ms =>
              match parts !! 2%nat with
              | None => Raise IndexError
              | Some p2 =>
                  match mapM PyStr.int (take 2 (PyStr.split_ws p2)) with
                  | None => Raise ValueError
                  | Some es =>
                      Draw_new (<["euro" := int_list_value es]>
                                  (<["main" := int_list_value ms]>
                                     (<["date" := VStr p0]> ∅)))
                  end
              end
          end
      end
  end.

(** One [try]/[except] block of the bulk handler: build the [Draw], store
    it and record its identifier, or record the exception under the given
    position. *)
Definition ingest (k : position_key) (n : nat) (mk : outcome Draw)
    (acc : list value * list descriptor)
  : M (list value * list descriptor) :=
  try_catch
    (d <- lift mk ;;
     doc <- create_document "draw" (Draw_model_dump d) ;;
     i <- lift (getitem doc "_id") ;;
     ret (acc.1 ++ [i], acc.2))
    (λ e, ret (acc.1, acc.2 ++ [mkDescriptor k n e])).

(** [for i, row in enumerate(reader)], from index [i] on. *)
Fixpoint csv_loop (i : nat) (rows : list (list string))
    (acc : list value * list descriptor)
  : M (list value * list descriptor) :=
  match rows with
  | [] => ret acc
  | r :: rest =>
      match r with
      | [] => csv_loop (S i) rest acc
      | c0 :: _ =>
          if is_header c0 then csv_loop (S i) rest acc
          else
            acc' <- ingest row (i + 1) (draw_of_row r) acc ;;
            csv_loop (S i) rest acc'
      end
  end.

(** [for i, item in enumerate(payload.json)] *)
Fixpoint json_loop (i : nat) (items : list value)
    (acc : list value * list descriptor)
  : M (list value * list descriptor) :=
  match items with
  | [] => ret acc
  | item :: rest =>
      acc' <- ingest json_index i (draw_of_item item) acc ;;
      json_loop (S i) rest acc'
  end.

(** [for i, line in enumerate(payload.text.splitlines())] *)
Fixpoint text_loop (i : nat) (lines : list string)
    (acc : list value * list descriptor)
  : M (list value * list descriptor) :=
  match lines with
  | [] => ret acc
  | l :: rest =>
      if PyStr.is_empty (PyStr.strip l) then text_loop (S i) rest acc
      else
        acc' <- ingest line (i + 1) (draw_of_line l) acc ;;
        text_loop (S i) rest acc'
  end.

(** The csv part: the rows are handled as the reader yields them, and an
    error of the reader leaves the loop and the handler. *)
Definition csv_part (s : string) (acc : list value * list descriptor)
  : M (list value * list descriptor) :=
  let '(rows, err) := Csv.reader_rows s in
  acc' <- csv_loop 0 rows acc ;;
  match err with
  | Some e => raise (CsvError e)
  | None => ret acc'
  end.

(** [POST /draws/bulk] *)
Definition add_draws_bulk (payload : BulkDraws) : M BulkResult :=
  acc <- match nonempty_str (csv payload) with
         | Some s => csv_part s ([], [])
         | None => ret ([], [])
         end ;;
  acc <- match nonempty_list (json payload) with
         | Some items => json_loop 0 items acc
         | None => ret acc
         end ;;
  acc <- match nonempty_str (text payload) with
         | Some s => text_loop 0 (PyStr.splitlines s) acc
         | None => ret acc
         end ;;
  ret (mkResult acc.1 acc.2).

Definition opt_match_value (m : option MatchResult) : value :=
  match m with Some r => MatchResult_value r | None => VNone end.

(** [POST /predictions] *)
Definition save_prediction (pred : Prediction) : M doc :=
  latest <- find_one "draw" ∅ (Some [("date", -1)]) ;;
  matched <- match latest with
             | Some d =>
                 if truthy_dict d
                 then
                   m <- lift (count_matches (Prediction_model_dump pred) d) ;;
                   ret (Some m)
                 else ret None
             | None => ret None
             end ;;
  create_document "prediction"
    (<["matched" := VDict {["latest_match" := opt_match_value matched]}]>
       (Prediction_model_dump pred)).

(** The loop of [latest_insights] over the predictions. *)
Fixpoint insights_loop (latest : doc) (preds : list doc)
    (matched_preds : list (value * MatchResult))
  : outcome (list (value * MatchResult)) :=
  match preds with
  | [] => Ok matched_preds
  | p :: rest =>
      match count_matches p latest with
      | Raise e => Raise e
      | Ok m =>
          if (0 <? m_total m)%nat then
            match getitem p "_id" with
            | Raise e => Raise e
            | Ok i => insights_loop latest rest (matched_preds ++ [(i, m)])
            end
          else insights_loop latest rest matched_preds
      end
  end.

(** [GET /insights/latest] *)
Definition latest_insights : M Insights :=
  latest <- find_one "draw" ∅ (Some [("date", -1)]) ;;
  match latest with
  | Some d =>
      if truthy_dict d then
        preds <- find "prediction" ∅ ;;
        matched_preds <-
          lift (insights_loop d (cursor_sort [("created_at", -1)] preds) []) ;;
        ret (HasLatest (d !! "date") matched_preds)
      else ret NoLatest
  | None => ret NoLatest
  end.

End Handlers.

(** ** Reference instances of the library parameters

    One concrete behaviour of each library, enough to run the handlers on
    inputs of the expected types: coercion accepts values that already have
    the target type and dates written [YYYY-MM-DD]; the store matches a
    filter by equality of scalar fields and sorts by a total order that
    ranks values by type. *)

Module Reference.

Definition ref_int (v : value) : option Z :=
  match v with VInt z => Some z | _ => None end.

Definition ref_list (v : value) : option (list value) :=
  match v with VList l => Some l | _ => None end.

Definition ref_date (v : value) : option date :=
  match v with
  | VStr s => parse_iso_date s
  | VDate d => Some d
  | _ => None
  end.

Definition ref_str (v : value) : option string :=
  match v with VStr s => Some s | _ => None end.

#[export] Instance pydantic : Pydantic := {|
  int_validator := ref_int;
  list_validator := ref_list;
  date_validator := ref_date;
  str_validator := ref_str;
  int_validator_int := λ z, eq_refl;
  list_validator_list := λ l, eq_refl;
  date_validator_iso := λ s d H, H;
|}.

Definition scalar_eqb (v w : value) : bool :=
  match v, w with
  | VNone, VNone => true
  | VBool a, VBool b => Bool.eqb a b
  | VInt a, VInt b => a =? b
  | VStr a, VStr b => String.eqb a b
  | VDate a, VDate b => bool_decide (a = b)
  | VDatetime a, VDatetime b => (a =? b)%N
  | VObjectId a, VObjectId b => (a =? b)%N
  | _, _ => false
  end.

Definition ref_matches (f d : doc) : bool :=
  forallb (λ kv, match d !! kv.1 with
                 | Some w => scalar_eqb kv.2 w
                 | None => false
                 end) (map_to_list f).

(** Sort key of a field value: the rank of its type, then up to three
    integers compared in order. *)
Definition sort_key (o : option value) : Z * Z * Z * Z :=
  match o with
  | None | Some VNone => (0, 0, 0, 0)
  | Some (VInt z) => (1, z, 0, 0)
  | Some (VStr _) => (2, 0, 0, 0)
  | Some (VDict _) => (3, 0, 0, 0)
  | Some (VList _) => (4, 0, 0, 0)
  | Some (VObjectId n) => (5, Z.of_N n, 0, 0)
  | Some (VBool b) => (6, if b then 1 else 0, 0, 0)
  | Some (VDate d) => (7, year d, month d, day d)
  | Some (VDatetime t) => (8, Z.of_N t, 0, 0)
  end.

Definition key_leb (x y : Z * Z * Z * Z) : bool :=
  let '(r, a, b, c) := x in
  let '(r', a', b', c') := y in
  (r <? r')
  || (r =? r')
     && ((a <? a')
         || (a =? a') && ((b <? b') || (b =? b') && (c <=? c'))).

Definition ref_le (a b : option value) : bool :=
  key_leb (sort_key a) (sort_key b).

(** Order of two documents under one sort key and direction. *)
Definition doc_le (k : string) (dir : Z) (a b : doc) : Prop :=
  if dir <? 0 then ref_le (b !! k) (a !! k) = true
  else ref_le (a !! k) (b !! k) = true.

#[export] Instance doc_le_dec k dir a b : Decision (doc_le k dir a b).
Proof. unfold doc_le. destruct (dir <? 0); apply _. Defined.

(** Sorting by several keys: one pass per key, the last key first. *)
Definition ref_sort (s : list (string * Z)) (l : list doc) : list doc :=
  foldr (λ kd acc, merge_sort (doc_le kd.1 kd.2) acc) l s.

Definition ref_limit (n : Z) (l : list doc) : list doc :=
  if n =? 0 then l else take (Z.to_nat (Z.abs n)) l.

Lemma key_leb_total x y : key_leb x y = true ∨ key_leb y x = true.
Proof.
  destruct x as [[[r a] b] c], y as [[[r' a'] b'] c']. unfold key_leb.
  rewrite !orb_true_iff, !andb_true_iff, !orb_true_iff, !andb_true_iff,
    !orb_true_iff, !andb_true_iff, !Z.ltb_lt, !Z.eqb_eq, !Z.leb_le.
  lia.
Qed.

Lemma key_leb_trans x y z :
  key_leb x y = true → key_leb y z = true → key_leb x z = true.
Proof.
  destruct x as [[[r a] b] c], y as [[[r' a'] b'] c'],
    z as [[[r'' a''] b''] c'']. unfold key_leb.
  rewrite !orb_true_iff, !andb_true_iff, !orb_true_iff, !andb_true_iff,
    !orb_true_iff, !andb_true_iff, !Z.ltb_lt, !Z.eqb_eq, !Z.leb_le.
  lia.
Qed.

#[export] Instance doc_le_total k dir : Total (doc_le k dir).
Proof.
  intros a b. unfold doc_le, ref_le.
  destruct (dir <? 0); apply key_leb_total.
Qed.

#[export] Instance doc_le_trans k dir : Transitive (doc_le k dir).
Proof.
  intros a b c. unfold doc_le, ref_le.
  destruct (dir <? 0); eauto using key_leb_trans.
Qed.

Lemma ref_matches_empty d : ref_matches ∅ d = true.
Proof. unfold ref_matches. by rewrite map_to_list_empty. Qed.

Lemma ref_matches_date (d : doc) x :
  d !! "date" = Some (VDate x) →
  ref_matches {["date" := VDate x]} d = true.
Proof.
  intros H. unfold ref_matches. rewrite map_to_list_singleton. simpl.
  rewrite H. simpl. rewrite bool_decide_eq_true_2; done.
Qed.

Lemma ref_le_refl v : ref_le v v = true.
Proof. destruct (key_leb_total (sort_key v) (sort_key v)); done. Qed.

Lemma ref_le_date a b :
  ref_le (Some (VDate a)) (Some (VDate b)) = date_leb a b.
Proof. reflexivity. Qed.

Lemma ref_le_datetime a b :
  ref_le (Some (VDatetime a)) (Some (VDatetime b)) = (a <=? b)%N.
Proof.
  unfold ref_le, key_leb, sort_key.
  change (8 <? 8) with false. change (8 =? 8) with true.
  change (0 <? 0) with false. change (0 =? 0) with true.
  change (0 <=? 0) with true. simpl.
  destruct (N.leb_spec a b), (Z.ltb_spec (Z.of_N a) (Z.of_N b)),
    (Z.eqb_spec (Z.of_N a) (Z.of_N b)); simpl; try reflexivity; lia.
Qed.

Lemma ref_sort_perm s l : ref_sort s l ≡ₚ l.
Proof.
  induction s as [|kd s IH]; simpl; [done|].
  by rewrite merge_sort_Permutation.
Qed.

Lemma ref_sort_desc k l :
  StronglySorted (λ a b : doc, ref_le (b !! k) (a !! k) = true)
                 (ref_sort [(k, -1)] l).
Proof.
  simpl. apply (StronglySorted_merge_sort (doc_le k (-1))).
Qed.

#[export] Instance mongo : Mongo := {|
  matches := ref_matches;
  bson_le := ref_le;
  cursor_sort := ref_sort;
  cursor_limit := ref_limit;
  matches_empty := ref_matches_empty;
  matches_date := ref_matches_date;
  bson_le_refl := ref_le_refl;
  bson_le_date := ref_le_date;
  bson_le_datetime := ref_le_datetime;
  cursor_sort_perm := ref_sort_perm;
  cursor_sort_desc := ref_sort_desc;
|}.

End Reference.

(** * Properties *)

(** ** The record store gateway *)

(** What [create_document] returns and the state it leaves, in closed form. *)
Definition stamped (data : doc) (st : db) : doc :=
  <["updated_at" := VDatetime (clock st + hd 0%N (ticks st))]>
    (<["created_at" := VDatetime (clock st)]> data).

Definition created (data : doc) (st : db) : doc :=
  <["_id" := VObjectId (next_oid st)]> (stamped data st).

Definition after_create (name : string) (data : doc) (st : db) : db :=
  mkDb (<[name := (collections st !!! name)
                   ++ [(next_oid st, stamped data st)]]>
          (collections st))
       (next_oid st + 1)%N
       (clock st + hd 0%N (ticks st) + hd 0%N (tl (ticks st)))%N
       (tl (tl (ticks st))).

Lemma create_document_eq name data st :
  create_document name data st
  = (Ok (created data st), after_create name data st).
Proof. reflexivity. Qed.

Lemma coll_after_create name data st :
  coll (after_create name data st) name = coll st name ++ [created data st].
Proof.
  unfold coll, after_create. simpl.
  rewrite lookup_total_insert_eq, fmap_app. reflexivity.
Qed.

Lemma coll_after_create_ne name name' data st :
  name ≠ name' → coll (after_create name data st) name' = coll st name'.
Proof.
  intros Hne. unfold coll, after_create. simpl.
  by rewrite lookup_total_insert_ne.
Qed.




Section Gateway.
Context {G : Mongo}.

Lemma find_eq name f st :
  find name f st = (Ok (List.filter (matches f) (coll st name)), st).
Proof. reflexivity. Qed.

Lemma filter_matches_empty (l : list doc) : List.filter (matches ∅) l = l.
Proof.
  induction l as [|d l IH]; simpl; [done|].
  by rewrite matches_empty, IH.
Qed.


End Gateway.

(** ** The match engine *)

Lemma mapM_hashable_ints (l : list Z) :
  mapM hashable (VInt <$> l) = Some (AInt <$> l).
Proof.
  apply mapM_Some.
  induction l as [|z l IH]; simpl; constructor; done.
Qed.

Lemma py_set_int_list (l : list Z) :
  py_set (int_list_value l) = Ok (list_to_set (AInt <$> l)).
Proof. unfold int_list_value. simpl. by rewrite mapM_hashable_ints. Qed.

#[global] Instance AInt_inj : Inj (=) (=) AInt.
Proof. intros x y H. by injection H. Qed.

Lemma size_set_map_inj `{Countable A, Countable B} (f : A → B)
    `{!Inj (=) (=) f} (X : gset A) :
  size (set_map f X : gset B) = size X.
Proof.
  unfold set_map. rewrite size_list_to_set.
  - by rewrite length_fmap.
  - apply (NoDup_fmap_2 f), NoDup_elements.
Qed.

(** The common elements of two integer lists, counted as set elements. *)
Lemma size_inter_atoms (a b : list Z) :
  size (list_to_set (AInt <$> a) ∩ list_to_set (AInt <$> b) : gset atom)
  = size (list_to_set a ∩ list_to_set b : gset Z).
Proof.
  rewrite <- (size_set_map_inj AInt). f_equal.
  apply set_eq. intros x.
  rewrite elem_of_intersection, !elem_of_list_to_set, !list_elem_of_fmap,
    elem_of_map.
  setoid_rewrite elem_of_intersection.
  setoid_rewrite elem_of_list_to_set.
  split.
  - intros [(y & -> & Hy) (z & Hz & Hz')].
    apply (inj AInt) in Hz as <-. eauto.
  - intros (y & -> & Hy & Hy'). split; exists y; done.
Qed.

Lemma count_matches_comm (p d : doc) : count_matches p d = count_matches d p.
Proof.
  unfold count_matches.
  destruct (py_set (dict_get p "main" (VList []))) as [pm|],
    (py_set (dict_get d "main" (VList []))) as [dm|],
    (py_set (dict_get p "euro" (VList []))) as [pe|],
    (py_set (dict_get d "euro" (VList []))) as [de|]; try reflexivity.
  by rewrite (comm_L (∩) pm dm), (comm_L (∩) pe de).
Qed.

Lemma count_matches_total (p d : doc) m :
  count_matches p d = Ok m → m_total m = (m_main m + m_euro m)%nat.
Proof.
  unfold count_matches.
  destruct (py_set (dict_get p "main" (VList []))),
    (py_set (dict_get d "main" (VList []))),
    (py_set (dict_get p "euro" (VList []))),
    (py_set (dict_get d "euro" (VList []))); intros [= <-]; reflexivity.
Qed.

Definition example_prediction : doc :=
  <["euro" := int_list_value [1; 2]]>
    (<["main" := int_list_value [1; 2; 3; 4; 5]]> ∅).

Definition example_draw : doc :=
  <["euro" := int_list_value [2; 12]]>
    (<["main" := int_list_value [3; 4; 5; 6; 7]]> ∅).

(** C3: for a prediction and a draw whose [main] and [euro] fields hold
    lists of integers, [count_matches] returns the number of integers
    common to the two [main] lists taken as sets, the number common to the
    two [euro] lists taken as sets, and their sum; exchanging the two
    records gives the same result; and the example of the specification
    evaluates to 3, 1 and 4. *)
Theorem count_matches_spec (p d : doc) (pm dm pe de : list Z) :
  p !! "main" = Some (int_list_value pm) →
  d !! "main" = Some (int_list_value dm) →
  p !! "euro" = Some (int_list_value pe) →
  d !! "euro" = Some (int_list_value de) →
  let main := size (list_to_set pm ∩ list_to_set dm : gset Z) in
  let euro := size (list_to_set pe ∩ list_to_set de : gset Z) in
  count_matches p d = Ok (mkMatch main euro (main + euro))
  ∧ count_matches d p = count_matches p d
  ∧ count_matches example_prediction example_draw = Ok (mkMatch 3 1 4).
Proof.
  intros Hpm Hdm Hpe Hde main euro. split; [|split].
  - unfold count_matches, dict_get. rewrite Hpm, Hdm, Hpe, Hde.
    rewrite !py_set_int_list. by rewrite !size_inter_atoms.
  - apply count_matches_comm.
  - by vm_compute.
Qed.

Lemma count_matches_spec_witness :
  example_prediction !! "main" = Some (int_list_value [1; 2; 3; 4; 5])
  ∧ count_matches example_prediction example_draw = Ok (mkMatch 3 1 4).
Proof.
  split; [reflexivity|].
  pose proof (count_matches_spec example_prediction example_draw
                [1; 2; 3; 4; 5] [3; 4; 5; 6; 7] [1; 2] [2; 12]
                eq_refl eq_refl eq_refl eq_refl) as H.
  destruct H as [H _]. rewrite H. vm_compute. reflexivity.
Defined.

(** ** The validation layer *)

Lemma size_list_to_set_le (l : list Z) :
  (size (list_to_set l : gset Z) ≤ List.length l)%nat.
Proof.
  induction l as [|x l IH]; simpl.
  - done.
  - destruct (decide (x ∈ (list_to_set l : gset Z))) as [Hin|Hout].
    + rewrite (subseteq_union_1_L {[x]} (list_to_set l)) by set_solver.
      lia.
    + rewrite size_union by set_solver. rewrite size_singleton. lia.
Qed.

(** [len(set(v)) == len(v)] says that the entries of [v] are distinct. *)
Lemma len_set_NoDup (l : list Z) : len_set l = List.length l ↔ NoDup l.
Proof.
  unfold len_set. split; [|apply size_list_to_set].
  induction l as [|x l IH]; simpl; intros Hsz; [constructor|].
  destruct (decide (x ∈ (list_to_set l : gset Z))) as [Hin|Hout].
  - rewrite (subseteq_union_1_L {[x]} (list_to_set l)) in Hsz by set_solver.
    pose proof (size_list_to_set_le l). lia.
  - rewrite size_union in Hsz by set_solver.
    rewrite size_singleton in Hsz.
    constructor; [by rewrite <- (elem_of_list_to_set (C:=gset Z))|].
    apply IH. lia.
Qed.

Lemma all_in_Forall lo hi (l : list Z) :
  all_in lo hi l = true ↔ Forall (λ n, lo ≤ n ≤ hi) l.
Proof.
  unfold all_in. rewrite forallb_forall, Forall_forall.
  split; intros H x Hx.
  - apply list_elem_of_In, H in Hx. lia.
  - apply list_elem_of_In, H in Hx. lia.
Qed.

(** The constraint on a number field in the words of the specification:
    exactly [n] entries, all distinct, each in the range. *)
Definition valid_numbers (n : nat) (lo hi : Z) (l : list Z) : Prop :=
  List.length l = n ∧ NoDup l ∧ Forall (λ x, lo ≤ x ≤ hi) l.

Lemma validate_main_ok (l : list Z) :
  List.length l = 5%nat →
  (validate_main l = inr l ↔ valid_numbers 5 1 50 l)
  ∧ (∀ l', validate_main l = inr l' → l' = l).
Proof.
  intros Hlen. unfold validate_main, valid_numbers.
  destruct (Nat.eqb_spec (len_set l) 5) as [Hs|Hs]; simpl.
  - destruct (all_in 1 50 l) eqn:Ha; simpl.
    + split; [|by intros l' [= <-]]. split; [|done]. intros _.
      split; [done|]. split.
      * apply len_set_NoDup. congruence.
      * by apply all_in_Forall.
    + split; [|done]. split; [done|]. intros (_ & _ & HF).
      apply all_in_Forall in HF. congruence.
  - split; [|done]. split; [done|]. intros (_ & HN & _).
    apply len_set_NoDup in HN. congruence.
Qed.

Lemma validate_euro_ok (l : list Z) :
  List.length l = 2%nat →
  (validate_euro l = inr l ↔ valid_numbers 2 1 12 l)
  ∧ (∀ l', validate_euro l = inr l' → l' = l).
Proof.
  intros Hlen. unfold validate_euro, valid_numbers.
  destruct (Nat.eqb_spec (len_set l) 2) as [Hs|Hs]; simpl.
  - destruct (all_in 1 12 l) eqn:Ha; simpl.
    + split; [|by intros l' [= <-]]. split; [|done]. intros _.
      split; [done|]. split.
      * apply len_set_NoDup. congruence.
      * by apply all_in_Forall.
    + split; [|done]. split; [done|]. intros (_ & _ & HF).
      apply all_in_Forall in HF. congruence.
  - split; [|done]. split; [done|]. intros (_ & HN & _).
    apply len_set_NoDup in HN. congruence.
Qed.

Section Validation.
Context {P : Pydantic}.

(** The integers a keyword argument is coerced to, if it is a list of
    values each coercible to an integer. *)
Definition as_int_list (kw : doc) (name : string) : option (list Z) :=
  match kw !! name with
  | Some v =>
      match list_validator v with
      | Some items => mapM int_validator items
      | None => None
      end
  | None => None
  end.

(** The three clauses of the specification on the input of [Draw]. *)
Definition main_ok (kw : doc) : Prop :=
  ∃ l, as_int_list kw "main" = Some l ∧ valid_numbers 5 1 50 l.

Definition euro_ok (kw : doc) : Prop :=
  ∃ l, as_int_list kw "euro" = Some l ∧ valid_numbers 2 1 12 l.


Lemma required_main_ok kw l :
  required kw "main" (int_list_field 5 validate_main) = inr l →
  as_int_list kw "main" = Some l ∧ valid_numbers 5 1 50 l.
Proof.
  unfold required, int_list_field, as_int_list.
  destruct (kw !! "main") as [v|]; [|done].
  destruct (list_validator v) as [items|]; [|done].
  destruct (mapM int_validator items) as [zs|]; [|done].
  destruct (Nat.ltb_spec (List.length zs) 5); [done|].
  destruct (Nat.ltb_spec 5 (List.length zs)); [done|].
  assert (Hlen : List.length zs = 5%nat) by lia.
  destruct (validate_main_ok zs Hlen) as [Hiff Heq].
  destruct (validate_main zs) as [msg|zs'] eqn:Hv; [done|].
  intros [= <-]. specialize (Heq _ eq_refl) as ->.
  split; [done|]. by apply Hiff.
Qed.


Lemma required_euro_ok kw l :
  required kw "euro" (int_list_field 2 validate_euro) = inr l →
  as_int_list kw "euro" = Some l ∧ valid_numbers 2 1 12 l.
Proof.
  unfold required, int_list_field, as_int_list.
  destruct (kw !! "euro") as [v|]; [|done].
  destruct (list_validator v) as [items|]; [|done].
  destruct (mapM int_validator items) as [zs|]; [|done].
  destruct (Nat.ltb_spec (List.length zs) 2); [done|].
  destruct (Nat.ltb_spec 2 (List.length zs)); [done|].
  assert (Hlen : List.length zs = 2%nat) by lia.
  destruct (validate_euro_ok zs Hlen) as [Hiff Heq].
  destruct (validate_euro zs) as [msg|zs'] eqn:Hv; [done|].
  intros [= <-]. specialize (Heq _ eq_refl) as ->.
  split; [done|]. by apply Hiff.
Qed.






(** The errors [Draw] reports, field by field. *)
Definition Draw_errors (kw : doc) : list field_error :=
  errors_of (required kw "date" date_field)
  ++ errors_of (required kw "main" (int_list_field 5 validate_main))
  ++ errors_of (required kw "euro" (int_list_field 2 validate_euro))
  ++ errors_of (optional kw "source" None opt_str_field).

Lemma Draw_new_inv kw :
  match Draw_new kw with
  | Ok d =>
      required kw "date" date_field = inr (draw_date d)
      ∧ required kw "main" (int_list_field 5 validate_main)
        = inr (draw_main d)
      ∧ required kw "euro" (int_list_field 2 validate_euro)
        = inr (draw_euro d)
  | Raise e => e = ValidationError (Draw_errors kw) ∧ Draw_errors kw ≠ []
  end.
Proof.
  unfold Draw_new, Draw_errors.
  destruct (required kw "date" date_field),
    (required kw "main" (int_list_field 5 validate_main)),
    (required kw "euro" (int_list_field 2 validate_euro)),
    (optional kw "source" None opt_str_field); simpl; done.
Qed.

(** The fields of [Draw]. *)
Definition Draw_fields : list string := ["date"; "main"; "euro"; "source"].



End Validation.

(** ** Reading the store *)

Lemma truthy_view p : truthy_dict (view p) = true.
Proof.
  unfold truthy_dict, view.
  destruct (Nat.eqb_spec (size (<["_id" := VObjectId p.1]> p.2)) 0) as [H|H];
    [|done].
  apply map_size_empty_inv in H. by apply insert_non_empty in H.
Qed.

Lemma truthy_coll st name d : d ∈ coll st name → truthy_dict d = true.
Proof.
  unfold coll. intros (p & -> & _)%list_elem_of_fmap. apply truthy_view.
Qed.

Lemma coll_has_id st name d :
  d ∈ coll st name → ∃ i, d !! "_id" = Some (VObjectId i).
Proof.
  unfold coll. intros (p & -> & _)%list_elem_of_fmap.
  exists p.1. apply lookup_insert_eq.
Qed.

Section Reading.
Context {G : Mongo}.

Lemma find_one_eq name f sort st :
  find_one name f sort st
  = (Ok (head (match sort with
               | Some s =>
                   cursor_sort s (List.filter (matches f) (coll st name))
               | None => List.filter (matches f) (coll st name)
               end)), st).
Proof. reflexivity. Qed.

Lemma cursor_sort_nil s : cursor_sort s [] = [].
Proof. apply Permutation_nil_r, cursor_sort_perm. Qed.

(** The first document of a descending sort: it is one of the documents and
    no document has a greater key. *)
Lemma cursor_sort_desc_head k (l : list doc) :
  l ≠ [] →
  ∃ x rest,
    cursor_sort [(k, -1)] l = x :: rest
    ∧ x ∈ l
    ∧ ∀ y, y ∈ l → bson_le (y !! k) (x !! k) = true.
Proof.
  intros Hne.
  pose proof (cursor_sort_perm [(k, -1)] l) as Hperm.
  pose proof (cursor_sort_desc k l) as Hsorted.
  destruct (cursor_sort [(k, -1)] l) as [|x rest].
  - apply Permutation_nil_l in Hperm. congruence.
  - exists x, rest. split; [done|]. split.
    + rewrite <- Hperm. apply list_elem_of_here.
    + intros y Hy. rewrite <- Hperm in Hy.
      apply StronglySorted_inv in Hsorted as [_ Hall].
      apply elem_of_cons in Hy as [->|Hy]; [apply bson_le_refl|].
      by eapply Forall_forall in Hall.
Qed.

(** The latest draw: what [find_one(sort=[("date", -1)])] returns. *)
Lemma find_latest st :
  (coll st "draw" = [] →
   find_one "draw" ∅ (Some [("date", -1)]) st = (Ok None, st))
  ∧ (coll st "draw" ≠ [] →
     ∃ latest,
       find_one "draw" ∅ (Some [("date", -1)]) st = (Ok (Some latest), st)
       ∧ latest ∈ coll st "draw"
       ∧ truthy_dict latest = true
       ∧ ∀ d, d ∈ coll st "draw" →
              bson_le (d !! "date") (latest !! "date") = true).
Proof.
  rewrite find_one_eq, filter_matches_empty. split.
  - intros ->. by rewrite cursor_sort_nil.
  - intros Hne.
    destruct (cursor_sort_desc_head "date" _ Hne)
      as (x & rest & -> & Hx & Hmax).
    exists x. repeat split; [done| |done]. by eapply truthy_coll.
Qed.

End Reading.

(** ** [POST /draws] *)

Definition conflict : exn :=
  HTTPException 409 "Draw for this date already exists".


Lemma Draw_model_dump_date d :
  Draw_model_dump d !! "date" = Some (VDate (draw_date d)).
Proof.
  unfold Draw_model_dump. rewrite !lookup_insert_ne by done.
  apply lookup_insert_eq.
Qed.

Lemma created_lookup data st k :
  k ≠ "_id" → k ≠ "created_at" → k ≠ "updated_at" →
  created data st !! k = data !! k.
Proof.
  intros. unfold created, stamped. by rewrite !lookup_insert_ne.
Qed.

Section AddDraw.
Context {G : Mongo}.

Lemma add_draw_eq draw st :
  add_draw draw st
  = if truthy (head (List.filter
                       (matches {["date" := VDate (draw_date draw)]})
                       (coll st "draw")))
    then (Raise conflict, st)
    else (Ok (created (Draw_model_dump draw) st),
          after_create "draw" (Draw_model_dump draw) st).
Proof.
  unfold add_draw, bind. rewrite find_one_eq.
  destruct (truthy _); reflexivity.
Qed.



End AddDraw.

Definition empty_db : db := mkDb ∅ 0 0 [].

Definition draw_2024_01_05 : Draw :=
  mkDraw (mkdate 2024 1 5) [1; 2; 3; 4; 5] [6; 7] None.


(** ** [POST /predictions] *)

(** The data [save_prediction] stores for a prediction and its match. *)
Definition prediction_data (pred : Prediction) (m : option MatchResult) : doc :=
  <["matched" := VDict {["latest_match" := opt_match_value m]}]>
    (Prediction_model_dump pred).

Section SavePrediction.
Context {G : Mongo}.


End SavePrediction.

Definition example_pred : Prediction :=
  mkPrediction [1; 2; 3; 4; 5] [1; 2] None "consensus" None.


(** ** [GET /insights/latest] *)

(** A document with [main] and [euro] lists of integers, as the program
    writes its draws and predictions. *)
Definition numbers_doc (d : doc) : Prop :=
  ∃ m e, d !! "main" = Some (int_list_value m)
         ∧ d !! "euro" = Some (int_list_value e).

Lemma count_matches_numbers (p d : doc) :
  numbers_doc p → numbers_doc d → ∃ m, count_matches p d = Ok m.
Proof.
  intros (pm & pe & Hpm & Hpe) (dm & de & Hdm & Hde).
  unfold count_matches, dict_get. rewrite Hpm, Hpe, Hdm, Hde.
  rewrite !py_set_int_list. eauto.
Qed.

(** What the specification has [latest_insights] emit for a prediction: its
    identifier and match result when the total is positive, and nothing
    otherwise. *)
Definition emitted (latest p : doc) : option (value * MatchResult) :=
  match count_matches p latest, p !! "_id" with
  | Ok m, Some i => if (0 <? m_total m)%nat then Some (i, m) else None
  | _, _ => None
  end.

Lemma insights_loop_emitted latest preds acc :
  Forall (λ p, (∃ m, count_matches p latest = Ok m)
               ∧ ∃ i, p !! "_id" = Some i) preds →
  insights_loop latest preds acc = Ok (acc ++ omap (emitted latest) preds).
Proof.
  intros Hall. revert acc.
  induction Hall as [|p preds [[m Hm] [i Hi]] _ IH]; intros acc; simpl.
  - by rewrite app_nil_r.
  - unfold emitted, getitem. rewrite Hm, Hi.
    destruct (0 <? m_total m)%nat.
    + rewrite IH, <- app_assoc. reflexivity.
    + apply IH.
Qed.

Section Insights.
Context {G : Mongo}.

(** C4: on a store without draws [latest_insights] returns
    [{"has_latest": False}], whatever the predictions are. On a store with
    draws, whose draws and predictions carry integer lists, it takes a
    stored draw that no draw exceeds in date (none is of a later day), goes
    through all stored predictions in an order in which none precedes one
    created later, and returns, in that order, exactly the predictions with
    a positive total against that draw, each as its identifier and its match
    result. *)
Theorem latest_insights_spec (st : db) :
  (coll st "draw" = [] → latest_insights st = (Ok NoLatest, st))
  ∧ (coll st "draw" ≠ [] →
     Forall numbers_doc (coll st "draw") →
     Forall numbers_doc (coll st "prediction") →
     ∃ latest preds,
       latest ∈ coll st "draw"
       ∧ (∀ d, d ∈ coll st "draw" →
               bson_le (d !! "date") (latest !! "date") = true)
       ∧ (∀ d x y, d ∈ coll st "draw" →
                   d !! "date" = Some (VDate x) →
                   latest !! "date" = Some (VDate y) →
                   date_leb x y = true)
       ∧ preds ≡ₚ coll st "prediction"
       ∧ StronglySorted
           (λ a b : doc,
              bson_le (b !! "created_at") (a !! "created_at") = true) preds
       ∧ latest_insights st
         = (Ok (HasLatest (latest !! "date") (omap (emitted latest) preds)),
            st)
       ∧ ∀ i m,
           (i, m) ∈ omap (emitted latest) preds
           ↔ ∃ p, p ∈ coll st "prediction"
                  ∧ p !! "_id" = Some i
                  ∧ count_matches p latest = Ok m
                  ∧ (0 < m_total m)%nat).
Proof.
  destruct (find_latest st) as [Hnone Hsome]. split.
  - intros Hempty. unfold latest_insights, bind.
    by rewrite (Hnone Hempty).
  - intros Hne Hdraws Hpreds.
    destruct (Hsome Hne) as (latest & Hfind & Hin & Htruthy & Hmax).
    set (preds := cursor_sort [("created_at", -1)] (coll st "prediction")).
    assert (Hperm : preds ≡ₚ coll st "prediction")
      by apply cursor_sort_perm.
    exists latest, preds. split; [done|]. split; [done|].
    split.
    { intros d x y Hd Hx Hy. rewrite <- bson_le_date, <- Hx, <- Hy. auto. }
    split; [done|]. split; [apply cursor_sort_desc|].
    assert (Hlatest : numbers_doc latest)
      by (eapply Forall_forall in Hdraws; eauto).
    split.
    + unfold latest_insights, bind. rewrite Hfind, Htruthy.
      rewrite find_eq, filter_matches_empty. fold preds.
      rewrite insights_loop_emitted; [reflexivity|].
      apply Forall_forall. intros p Hp. rewrite Hperm in Hp. split.
      * apply count_matches_numbers; [|done].
        by eapply Forall_forall in Hpreds.
      * destruct (coll_has_id _ _ _ Hp) as [i Hi]. eauto.
    + intros i m. rewrite list_elem_of_omap. unfold emitted. split.
      * intros (p & Hp & He). exists p. rewrite Hperm in Hp.
        split; [done|].
        destruct (count_matches p latest) as [m'|]; [|done].
        destruct (p !! "_id") as [i'|]; [|done].
        destruct (Nat.ltb_spec 0 (m_total m')); [|done].
        injection He as <- <-. done.
      * intros (p & Hp & Hi & Hm & Hpos). exists p.
        rewrite Hperm. split; [done|]. rewrite Hm, Hi.
        by destruct (Nat.ltb_spec 0 (m_total m)); [|lia].
Qed.

End Insights.

Lemma numbers_created_draw d st : numbers_doc (created (Draw_model_dump d) st).
Proof.
  exists (draw_main d), (draw_euro d).
  rewrite !created_lookup by done. unfold Draw_model_dump.
  split; [rewrite !lookup_insert_ne by done|rewrite lookup_insert_ne by done];
    apply lookup_insert_eq.
Qed.

Lemma numbers_created_prediction p m st :
  numbers_doc (created (prediction_data p m) st).
Proof.
  exists (pred_main p), (pred_euro p).
  rewrite !created_lookup by done.
  unfold prediction_data, Prediction_model_dump.
  split; rewrite !lookup_insert_ne by done; [|apply lookup_insert_eq].
  apply lookup_insert_eq.
Qed.

(** A store with one draw and two predictions, of which the first shares
    numbers with the draw and the second does not. *)
Definition draw_3_to_7 : Draw :=
  mkDraw (mkdate 2024 1 5) [3; 4; 5; 6; 7] [2; 12] None.

Definition other_pred : Prediction :=
  mkPrediction [41; 42; 43; 44; 45] [7; 8] None "consensus" None.

Definition insights_db : db :=
  let st1 := after_create "draw" (Draw_model_dump draw_3_to_7) empty_db in
  let m := Some (mkMatch 3 1 4) in
  let st2 := after_create "prediction" (prediction_data example_pred m) st1 in
  after_create "prediction"
    (prediction_data other_pred (Some (mkMatch 0 0 0))) st2.

(** The response on that store, computed. *)
Example latest_insights_example :
  latest_insights (G := Reference.mongo) insights_db
  = (Ok (HasLatest (Some (VDate (mkdate 2024 1 5)))
                   [(VObjectId 1, mkMatch 3 1 4)]), insights_db).
Proof. vm_compute. reflexivity. Qed.

Lemma latest_insights_spec_witness :
  coll insights_db "draw" ≠ []
  ∧ Forall numbers_doc (coll insights_db "draw")
  ∧ Forall numbers_doc (coll insights_db "prediction")
  ∧ ∃ latest preds,
      latest ∈ coll insights_db "draw"
      ∧ preds ≡ₚ coll insights_db "prediction"
      ∧ latest_insights (G := Reference.mongo) insights_db
        = (Ok (HasLatest (latest !! "date") (omap (emitted latest) preds)),
           insights_db).
Proof.
  assert (H1 : coll insights_db "draw" ≠ []) by discriminate.
  assert (H2 : Forall numbers_doc (coll insights_db "draw")).
  { repeat constructor. apply numbers_created_draw. }
  assert (H3 : Forall numbers_doc (coll insights_db "prediction")).
  { repeat constructor;
      [apply (numbers_created_prediction example_pred)
      |apply (numbers_created_prediction other_pred)]. }
  split; [exact H1|]. split; [exact H2|]. split; [exact H3|].
  destruct (latest_insights_spec (G := Reference.mongo) insights_db)
    as [_ H].
  destruct (H H1 H2 H3)
    as (latest & preds & Hin & _ & _ & Hperm & _ & Hrun & _).
  exists latest, preds. split; [exact Hin|]. split; [exact Hperm|]. exact Hrun.
Defined.

(** ** Bulk ingestion: building a [Draw] from converted values *)

(** The keyword arguments the csv and free-text paths pass to [Draw]. *)
Definition typed_kw (date_text : string) (ms es : list Z) : doc :=
  <["euro" := int_list_value es]>
    (<["main" := int_list_value ms]> (<["date" := VStr date_text]> ∅)).

Section TypedInput.
Context {P : Pydantic}.






End TypedInput.

(** ** Bulk ingestion: one record *)

Lemma ingest_eq k n (mk : outcome Draw) acc st :
  ingest k n mk acc st
  = match mk with
    | Ok d =>
        (Ok (acc.1 ++ [VObjectId (next_oid st)], acc.2),
         after_create "draw" (Draw_model_dump d) st)
    | Raise e => (Ok (acc.1, acc.2 ++ [mkDescriptor k n e]), st)
    end.
Proof. destruct mk; reflexivity. Qed.

(** A record never makes [ingest] raise. *)
Lemma ingest_total k n mk acc st :
  ∃ acc' st', ingest k n mk acc st = (Ok acc', st').
Proof. rewrite ingest_eq. destruct mk; eauto. Qed.

(** ** Facts about the text primitives *)

Module PyStrFacts.
Import PyStr.

(** [c in s] *)
Fixpoint contains (c : ascii) (s : string) : bool :=
  match s with
  | EmptyString => false
  | String x s' => Ascii.eqb x c || contains c s'
  end.

Lemma split_without sep s : contains sep s = false → split sep s = [s].
Proof.
  induction s as [|c s IH]; simpl; [done|].
  intros [Hc Hs]%orb_false_elim. rewrite Hc, (IH Hs). reflexivity.
Qed.

Lemma split_app_sep sep a b :
  contains sep a = false →
  split sep (a +:+ String sep b) = a :: split sep b.
Proof.
  induction a as [|c a IH]; simpl.
  - intros _. by rewrite Ascii.eqb_refl.
  - intros [Hc Ha]%orb_false_elim. rewrite Hc, (IH Ha). reflexivity.
Qed.

Lemma split_ws_lstrip s : split_ws (lstrip s) = split_ws s.
Proof.
  induction s as [|c s IH]; simpl; [done|].
  destruct (is_space c) eqn:Hc; [done|]. simpl. by rewrite Hc.
Qed.

Lemma starts_token_rstrip s : starts_token (rstrip s) = starts_token s.
Proof.
  destruct s as [|c s]; simpl; [done|].
  destruct (is_space c) eqn:Hc; simpl.
  - destruct (is_empty (rstrip s)); simpl; [done|]. by rewrite Hc.
  - by rewrite Hc.
Qed.

Lemma split_ws_rstrip s : split_ws (rstrip s) = split_ws s.
Proof.
  induction s as [|c s IH]; [done|].
  cbn [rstrip]. destruct (is_space c) eqn:Hc; simpl.
  - destruct (rstrip s) as [|c' r] eqn:Hr; simpl.
    + rewrite Hc, <- IH. reflexivity.
    + rewrite Hc, <- IH. reflexivity.
  - rewrite Hc, starts_token_rstrip, IH. reflexivity.
Qed.

Lemma split_ws_strip s : split_ws (strip s) = split_ws s.
Proof. unfold strip. by rewrite split_ws_rstrip, split_ws_lstrip. Qed.




Lemma blank_no_tokens s : is_empty (strip s) = true → split_ws s = [].
Proof.
  intros H. rewrite <- split_ws_strip.
  by destruct (strip s).
Qed.

End PyStrFacts.

(** ** Bulk ingestion: the three loops *)

Section Loops.
Context {P : Pydantic}.

Lemma csv_loop_skip i c0 cols rest acc st :
  is_header c0 = true →
  csv_loop i ((c0 :: cols) :: rest) acc st = csv_loop (S i) rest acc st.
Proof. intros H. simpl. by rewrite H. Qed.

Lemma csv_loop_data i c0 cols rest acc st :
  is_header c0 = false →
  csv_loop i ((c0 :: cols) :: rest) acc st
  = match draw_of_row (c0 :: cols) with
    | Ok d =>
        csv_loop (S i) rest (acc.1 ++ [VObjectId (next_oid st)], acc.2)
          (after_create "draw" (Draw_model_dump d) st)
    | Raise e =>
        csv_loop (S i) rest
          (acc.1, acc.2 ++ [mkDescriptor row (i + 1) e]) st
    end.
Proof.
  intros H. cbn [csv_loop]. rewrite H. unfold bind. rewrite ingest_eq.
  by destruct (draw_of_row (c0 :: cols)).
Qed.

Lemma json_loop_step i item rest acc st :
  json_loop i (item :: rest) acc st
  = match draw_of_item item with
    | Ok d =>
        json_loop (S i) rest (acc.1 ++ [VObjectId (next_oid st)], acc.2)
          (after_create "draw" (Draw_model_dump d) st)
    | Raise e =>
        json_loop (S i) rest
          (acc.1, acc.2 ++ [mkDescriptor json_index i e]) st
    end.
Proof.
  cbn [json_loop]. unfold bind. rewrite ingest_eq.
  by destruct (draw_of_item item).
Qed.

Lemma text_loop_skip i l rest acc st :
  PyStr.is_empty (PyStr.strip l) = true →
  text_loop i (l :: rest) acc st = text_loop (S i) rest acc st.
Proof. intros H. simpl. by rewrite H. Qed.

Lemma text_loop_data i l rest acc st :
  PyStr.is_empty (PyStr.strip l) = false →
  text_loop i (l :: rest) acc st
  = match draw_of_line l with
    | Ok d =>
        text_loop (S i) rest (acc.1 ++ [VObjectId (next_oid st)], acc.2)
          (after_create "draw" (Draw_model_dump d) st)
    | Raise e =>
        text_loop (S i) rest
          (acc.1, acc.2 ++ [mkDescriptor line (i + 1) e]) st
    end.
Proof.
  intros H. cbn [text_loop]. rewrite H. unfold bind. rewrite ingest_eq.
  by destruct (draw_of_line l).
Qed.

(** The loops return: no record makes them raise. *)
Lemma csv_loop_total rows : ∀ i acc st,
  ∃ acc' st', csv_loop i rows acc st = (Ok acc', st').
Proof.
  induction rows as [|r rows IH]; intros i acc st; [by eexists _, _|].
  destruct r as [|c0 cols]; [apply IH|].
  destruct (is_header c0) eqn:Hh.
  - rewrite csv_loop_skip by done. apply IH.
  - rewrite csv_loop_data by done.
    destruct (draw_of_row (c0 :: cols)); apply IH.
Qed.

Lemma json_loop_total items : ∀ i acc st,
  ∃ acc' st', json_loop i items acc st = (Ok acc', st').
Proof.
  induction items as [|item items IH]; intros i acc st; [by eexists _, _|].
  rewrite json_loop_step. destruct (draw_of_item item); apply IH.
Qed.

(** The free-text loop returns, keeps the descriptors it had, and has a
    descriptor for every line whose [Draw] cannot be built, under the
    number of that line. *)
Lemma text_loop_errors lines : ∀ i acc st,
  ∃ acc' st',
    text_loop i lines acc st = (Ok acc', st')
    ∧ (∀ x, x ∈ acc.2 → x ∈ acc'.2)
    ∧ ∀ j l e,
        lines !! j = Some l →
        PyStr.is_empty (PyStr.strip l) = false →
        draw_of_line l = Raise e →
        mkDescriptor line (i + j + 1) e ∈ acc'.2.
Proof.
  induction lines as [|l lines IH]; intros i acc st.
  - exists acc, st. split; [done|]. split; [done|]. by intros j l e.
  - destruct (PyStr.is_empty (PyStr.strip l)) eqn:Hblank.
    + rewrite text_loop_skip by done.
      destruct (IH (S i) acc st) as (acc' & st' & -> & Hkeep & Herr).
      exists acc', st'. split; [done|]. split; [done|].
      intros [|j] l' e Hl Hnb He; simpl in Hl.
      * congruence.
      * replace (i + S j + 1)%nat with (S i + j + 1)%nat by lia. eauto.
    + rewrite text_loop_data by done.
      destruct (draw_of_line l) as [d|e0] eqn:Hd.
      * destruct (IH (S i) (acc.1 ++ [VObjectId (next_oid st)], acc.2)
                    (after_create "draw" (Draw_model_dump d) st))
          as (acc' & st' & -> & Hkeep & Herr).
        exists acc', st'. split; [done|]. split; [done|].
        intros [|j] l' e Hl Hnb He; simpl in Hl.
        -- congruence.
        -- replace (i + S j + 1)%nat with (S i + j + 1)%nat by lia. eauto.
      * destruct (IH (S i) (acc.1, acc.2 ++ [mkDescriptor line (i + 1) e0]) st)
          as (acc' & st' & -> & Hkeep & Herr).
        exists acc', st'. split; [done|]. simpl in Hkeep. split.
        -- intros x Hx. apply Hkeep, elem_of_app. by left.
        -- intros [|j] l' e Hl Hnb He; simpl in Hl.
           ++ injection Hl as <-. rewrite Hd in He. injection He as <-.
              replace (i + 0 + 1)%nat with (i + 1)%nat by lia.
              apply Hkeep, elem_of_app. right. apply list_elem_of_here.
           ++ replace (i + S j + 1)%nat with (S i + j + 1)%nat by lia. eauto.
Qed.

(** When the csv reader reads its input to the end, the handler returns. *)
Lemma add_draws_bulk_returns payload st :
  (∀ s, nonempty_str (csv payload) = Some s →
        (Csv.reader_rows s).2 = None) →
  ∃ r st', add_draws_bulk payload st = (Ok r, st').
Proof.
  intros Hcsv. unfold add_draws_bulk, bind.
  assert (H1 : ∃ acc1 st1,
             match nonempty_str (csv payload) with
             | Some s => csv_part s ([], [])
             | None => ret ([], [])
             end st = (Ok acc1, st1)).
  { destruct (nonempty_str (csv payload)) as [s|]; [|by eexists _, _].
    specialize (Hcsv s eq_refl). unfold csv_part.
    destruct (Csv.reader_rows s) as [rows err]. simpl in Hcsv. subst err.
    unfold bind.
    destruct (csv_loop_total rows 0%nat ([], []) st) as (a & s' & ->).
    by eexists _, _. }
  destruct H1 as (acc1 & st1 & ->).
  assert (H2 : ∃ acc2 st2,
             match nonempty_list (json payload) with
             | Some items => json_loop 0 items acc1
             | None => ret acc1
             end st1 = (Ok acc2, st2)).
  { destruct (nonempty_list (json payload)) as [items|]; [|by eexists _, _].
    apply json_loop_total. }
  destruct H2 as (acc2 & st2 & ->).
  destruct (nonempty_str (text payload)) as [s|].
  - destruct (text_loop_errors (PyStr.splitlines s) 0%nat acc2 st2)
      as (acc3 & st3 & -> & _). by eexists _, _.
  - by eexists _, _.
Qed.

End Loops.

(** ** Bulk ingestion: csv rows *)


Section CsvRows.
Context {P : Pydantic}.








(** A row that the loop treats as data: not empty, no header cell. *)
Definition data_row (r : list string) : Prop :=
  ∃ c0 cols, r = c0 :: cols ∧ is_header c0 = false.


End CsvRows.

(** ** Bulk ingestion: free-text lines *)


(** The fields of a line: its pieces between semicolons, stripped. *)
Definition line_parts (l : string) : list string :=
  PyStr.strip <$> PyStr.split semicolon l.


(** A line made of three fields. *)
Definition join3 (d m e : string) : string :=
  d +:+ String semicolon (m +:+ String semicolon e).


Definition only_text (s : string) : BulkDraws := mkBulk None None (Some s).


Section TextLines.
Context {P : Pydantic}.

(** The [Draw] built from a date text and the tokens of the two number
    fields, of which the first five and the first two are read. *)
Definition draw_of_tokens (p0 : string) (mt et : list string)
  : outcome Draw :=
  match mapM PyStr.int (take 5 mt) with
  | None => Raise ValueError
  | Some ms =>
      match mapM PyStr.int (take 2 et) with
      | None => Raise ValueError
      | Some es => Draw_new (typed_kw p0 ms es)
      end
  end.

Lemma draw_of_line_parts l p0 p1 p2 rest :
  line_parts l = p0 :: p1 :: p2 :: rest →
  draw_of_line l
  = draw_of_tokens p0 (PyStr.split_ws p1) (PyStr.split_ws p2).
Proof.
  unfold draw_of_line, draw_of_tokens. fold (line_parts l). intros ->. simpl.
  destruct (mapM PyStr.int (take 5 (PyStr.split_ws p1))); [|done].
  by destruct (mapM PyStr.int (take 2 (PyStr.split_ws p2))).
Qed.

Lemma line_parts_join3 d m e :
  PyStrFacts.contains semicolon d = false →
  PyStrFacts.contains semicolon m = false →
  PyStrFacts.contains semicolon e = false →
  line_parts (join3 d m e) = [PyStr.strip d; PyStr.strip m; PyStr.strip e].
Proof.
  intros Hd Hm He. unfold line_parts, join3.
  rewrite !PyStrFacts.split_app_sep by done.
  by rewrite PyStrFacts.split_without.
Qed.

Lemma draw_of_line_join3 d m e :
  PyStrFacts.contains semicolon d = false →
  PyStrFacts.contains semicolon m = false →
  PyStrFacts.contains semicolon e = false →
  draw_of_line (join3 d m e)
  = draw_of_tokens (PyStr.strip d) (PyStr.split_ws m) (PyStr.split_ws e).
Proof.
  intros Hd Hm He.
  rewrite (draw_of_line_parts _ _ _ _ _ (line_parts_join3 d m e Hd Hm He)).
  by rewrite !PyStrFacts.split_ws_strip.
Qed.






End TextLines.

Section TextPart.
Context {P : Pydantic}.

(** The csv reader reads the csv part, if there is one, to its end. *)
Definition csv_readable (payload : BulkDraws) : Prop :=
  ∀ s, nonempty_str (csv payload) = Some s → (Csv.reader_rows s).2 = None.



End TextPart.

(** ** Bulk ingestion: an error of the csv reader *)

Definition nl : string := String PyStr.LF EmptyString.







Section ReaderError.
Context {P : Pydantic}.





End ReaderError.

(** ** Worked inputs under the reference instances *)

Example is_header_cases :
  is_header "date" = true ∧ is_header "Date" = true
  ∧ is_header " DATE " = true ∧ is_header "data" = true
  ∧ is_header "2024-01-05" = false.
Proof. repeat split. Qed.

Definition invalid_row : list string :=
  ["2024-01-06"; "1"; "2"; "3"; "4"; "5"; "6"; "99"].

Definition euro_out_of_range : exn :=
  ValidationError
    [mkFieldError "euro" (value_error "Euro numbers must be in 1..12")].

Definition csv_valid_then_invalid : string :=
  "2024-01-05,1,2,3,4,5,6,7" +:+ nl +:+ "2024-01-06,1,2,3,4,5,6,99".



Lemma data_row_invalid_row : data_row invalid_row.
Proof. by eexists _, _. Qed.


(** Three lines: a valid one, a blank one, and one with three main
    tokens. *)
Definition text_with_short_line : string :=
  "2024-01-05; 1 2 3 4 5; 6 7" +:+ nl +:+ "  " +:+ nl
  +:+ "2024-01-08; 1 2 3; 6 7".


(** The whole response for that text, computed. *)
Example add_draws_bulk_text_example :
  ∃ st',
    add_draws_bulk (P := Reference.pydantic)
      (only_text text_with_short_line) empty_db
    = (Ok (mkResult
             [VObjectId 0]
             [mkDescriptor line 3
                (ValidationError [mkFieldError "main" too_short])]), st').
Proof. eexists. vm_compute. reflexivity. Qed.

(** * The remaining handlers

    The handlers of main.py that read, change and delete stored documents,
    the store operations they call, and properties of the whole API. *)

(** ** Store operations *)

(** The stored entries of a collection, each an identifier and its fields. *)
Definition entries (st : db) (name : string) : list (N * doc) :=
  collections st !!! name.

Definition set_entries (name : string) (l : list (N * doc)) (st : db) : db :=
  mkDb (<[name := l]> (collections st)) (next_oid st) (clock st) (ticks st).

Section MoreDatabase.
Context {G : Mongo}.

(** [coll.count_documents(filter)] *)
Definition count_documents (name : string) (f : doc) : M nat :=
  λ st, (Ok (List.length (List.filter (matches f) (coll st name))), st).

(** The entries a filter leaves. *)
Definition unmatched (f : doc) (l : list (N * doc)) : list (N * doc) :=
  List.filter (λ p, negb (matches f (view p))) l.

(** [coll.delete_many(filter).deleted_count] *)
Definition delete_many (name : string) (f : doc) : M nat :=
  λ st, let keep := unmatched f (entries st name) in
        (Ok (List.length (entries st name) - List.length keep)%nat,
         set_entries name keep st).

(** Removes the first entry the filter matches, if there is one. *)
Fixpoint remove_first (f : doc) (l : list (N * doc))
  : option (list (N * doc)) :=
  match l with
  | [] => None
  | p :: rest =>
      if matches f (view p) then Some rest
      else match remove_first f rest with
           | Some rest' => Some (p :: rest')
           | None => None
           end
  end.

(** [coll.delete_one(filter).deleted_count] *)
Definition delete_one (name : string) (f : doc) : M nat :=
  λ st, match remove_first f (entries st name) with
        | Some l => (Ok 1%nat, set_entries name l st)
        | None => (Ok 0%nat, st)
        end.

(** Sets the given fields in the first entry the filter matches, and
    returns the document as it is afterwards. *)
Fixpoint update_first (f : doc) (fields : doc) (l : list (N * doc))
  : option (doc * list (N * doc)) :=
  match l with
  | [] => None
  | p :: rest =>
      if matches f (view p)
      then
        let p' := (p.1, fields ∪ p.2) in
        Some (view p', p' :: rest)
      else match update_first f fields rest with
           | Some (d, rest') => Some (d, p :: rest')
           | None => None
           end
  end.

(** [coll.find_one_and_update(filter, {"$set": fields},
    return_document=True)] *)
Definition find_one_and_update (name : string) (f : doc) (fields : doc)
  : M (option doc) :=
  λ st, match update_first f fields (entries st name) with
        | Some (d, l) => (Ok (Some d), set_entries name l st)
        | None => (Ok None, st)
        end.

End MoreDatabase.

(** [datetime.utcnow()]: a reading of the same clock. *)
Definition utcnow : M N := _now.

(** Identifiers in requests. [ObjectId(s)] either raises, here [None], or
    gives the value the filter on [_id] is built from; which texts it
    accepts is the library's business. The law says how the store matches
    an identifier: against the [_id] of the document. *)
Class Bson {G : Mongo} := {
  ObjectId : string → option value;
  matches_id : ∀ n p,
    matches {["_id" := VObjectId n]} (view p) = (p.1 =? n)%N;
}.

(** ** main.py, continued *)

(** [{"ok": True, "draws": .., "predictions": ..}] *)
Record Status := mkStatus { ok : bool; draws : nat; predictions : nat }.

Definition invalid_id : exn := HTTPException 400 "Invalid id".
Definition not_found : exn := HTTPException 404 "Not found".

Section MoreHandlers.
Context {G : Mongo} {B : Bson}.

(** [GET /test] *)
Definition test_root : M Status :=
  d <- count_documents "draw" ∅ ;;
  p <- count_documents "prediction" ∅ ;;
  ret (mkStatus true d p).

(** [PUT /draws/{draw_id}] *)
Definition update_draw (draw_id : string) (draw : Draw) : M doc :=
  match ObjectId draw_id with
  | None => raise invalid_id
  | Some oid =>
      now <- utcnow ;;
      res <- find_one_and_update "draw" {["_id" := oid]}
               (<["updated_at" := VDatetime now]> (Draw_model_dump draw)) ;;
      match res with
      | Some d => if truthy_dict d then ret d else raise not_found
      | None => raise not_found
      end
  end.

(** [DELETE /draws/{draw_id}]; the result is the [deleted] count. *)
Definition delete_draw (draw_id : string) : M nat :=
  match ObjectId draw_id with
  | None => raise invalid_id
  | Some oid => delete_one "draw" {["_id" := oid]}
  end.

(** [DELETE /draws] *)
Definition clear_draws : M nat := delete_many "draw" ∅.

(** [DELETE /predictions] *)
Definition clear_predictions : M nat := delete_many "prediction" ∅.

End MoreHandlers.

Module ReferenceIds.
Import Reference.

Definition hex_val (c : ascii) : option N :=
  let n := PyStr.code c in
  if ((48 <=? n) && (n <=? 57))%N then Some (n - 48)%N
  else if ((97 <=? n) && (n <=? 102))%N then Some (n - 87)%N
  else if ((65 <=? n) && (n <=? 70))%N then Some (n - 55)%N
  else None.

Fixpoint hex_value (s : string) (acc : N) : option N :=
  match s with
  | EmptyString => Some acc
  | String c s' =>
      match hex_val c with
      | Some d => hex_value s' (16 * acc + d)%N
      | None => None
      end
  end.

(** Accepts the 24 hexadecimal digits of an identifier. *)
Definition ref_object_id (s : string) : option value :=
  if Nat.eqb (String.length s) 24
  then VObjectId <$> hex_value s 0%N
  else None.

Lemma ref_matches_id n p :
  ref_matches {["_id" := VObjectId n]} (view p) = (p.1 =? n)%N.
Proof.
  unfold ref_matches, view. rewrite map_to_list_singleton. simpl.
  rewrite lookup_insert_eq. simpl. rewrite andb_true_r. apply N.eqb_sym.
Qed.

#[export] Instance bson : Bson (G := mongo) := {|
  ObjectId := ref_object_id;
  matches_id := ref_matches_id;
|}.

End ReferenceIds.

(** ** Bulk ingestion as one loop over classified records *)

(** A record of the input: passed over ([None]), or the [Draw] built from it
    or the exception raised while building it. *)
Definition csv_record {P : Pydantic} (r : list string)
  : option (outcome Draw) :=
  match r with
  | [] => None
  | c0 :: _ => if is_header c0 then None else Some (draw_of_row r)
  end.

Definition json_record {P : Pydantic} (item : value)
  : option (outcome Draw) :=
  Some (draw_of_item item).

Definition text_record {P : Pydantic} (l : string) : option (outcome Draw) :=
  if PyStr.is_empty (PyStr.strip l) then None else Some (draw_of_line l).

(** The loop the three formats share: the record at index [i] is stored or
    reported under position [i + off]. *)
Fixpoint records_loop (k : position_key) (off i : nat)
    (recs : list (option (outcome Draw)))
    (acc : list value * list descriptor)
  : M (list value * list descriptor) :=
  match recs with
  | [] => ret acc
  | None :: rest => records_loop k off (S i) rest acc
  | Some mk :: rest =>
      acc' <- ingest k (i + off) mk acc ;;
      records_loop k off (S i) rest acc'
  end.

(** The draws accepted among the records, in order. *)
Fixpoint accepted (recs : list (option (outcome Draw))) : list Draw :=
  match recs with
  | [] => []
  | Some (Ok d) :: rest => d :: accepted rest
  | _ :: rest => accepted rest
  end.

(** The descriptors of the failed records, in order. *)
Fixpoint descriptors (k : position_key) (off i : nat)
    (recs : list (option (outcome Draw))) : list descriptor :=
  match recs with
  | [] => []
  | Some (Raise e) :: rest =>
      mkDescriptor k (i + off) e :: descriptors k off (S i) rest
  | _ :: rest => descriptors k off (S i) rest
  end.

(** The records that are not passed over. *)
Definition handled (recs : list (option (outcome Draw)))
  : list (outcome Draw) :=
  omap (λ r, r) recs.

(** A stored document holds the fields of a draw. *)
Definition stored_as (d : Draw) (stored : doc) : Prop :=
  ∀ k, k ≠ "_id" → k ≠ "created_at" → k ≠ "updated_at" →
       stored !! k = Draw_model_dump d !! k.

(** From [st] to [st'] documents holding the given draws were appended to
    the draws, under the given identifiers and in that order, and nothing
    else has changed in any collection. *)
Definition appended (st st' : db) (ids : list value) (ds : list Draw)
  : Prop :=
  ∃ new,
    coll st' "draw" = coll st "draw" ++ new
    ∧ Forall2 (λ i stored, stored !! "_id" = Some i) ids new
    ∧ Forall2 stored_as ds new
    ∧ ∀ other, other ≠ "draw" → coll st' other = coll st other.

Lemma appended_nil st : appended st st [] [].
Proof. exists []. by rewrite app_nil_r. Qed.

Lemma appended_cons st d st' ids ds :
  appended (after_create "draw" (Draw_model_dump d) st) st' ids ds →
  appended st st' (VObjectId (next_oid st) :: ids) (d :: ds).
Proof.
  intros (new & Hcoll & Hids & Hds & Hother).
  exists (created (Draw_model_dump d) st :: new).
  rewrite coll_after_create, <- app_assoc in Hcoll.
  split; [done|]. split; [|split].
  - constructor; [apply lookup_insert_eq|done].
  - constructor; [|done]. intros k ? ? ?. by apply created_lookup.
  - intros other Hne. rewrite Hother by done.
    by apply coll_after_create_ne.
Qed.

Lemma appended_trans st1 st2 st3 ids ids' ds ds' :
  appended st1 st2 ids ds → appended st2 st3 ids' ds' →
  appended st1 st3 (ids ++ ids') (ds ++ ds').
Proof.
  intros (new & Hc & Hi & Hd & Ho) (new' & Hc' & Hi' & Hd' & Ho').
  exists (new ++ new'). rewrite Hc', Hc, <- app_assoc.
  split; [done|]. split; [by apply Forall2_app|].
  split; [by apply Forall2_app|].
  intros other Hne. by rewrite Ho', Ho.
Qed.

Lemma records_loop_spec k off recs : ∀ i acc st,
  ∃ ids st',
    records_loop k off i recs acc st
    = (Ok (acc.1 ++ ids, acc.2 ++ descriptors k off i recs), st')
    ∧ appended st st' ids (accepted recs).
Proof.
  induction recs as [|[[d|e]|] recs IH]; intros i [ins errs] st; simpl.
  - exists [], st. rewrite !app_nil_r. split; [done|apply appended_nil].
  - unfold bind. rewrite ingest_eq. simpl.
    destruct (IH (S i) (ins ++ [VObjectId (next_oid st)], errs)
                (after_create "draw" (Draw_model_dump d) st))
      as (ids & st' & -> & Happ).
    exists (VObjectId (next_oid st) :: ids), st'. simpl.
    rewrite <- app_assoc. split; [done|]. by apply appended_cons.
  - unfold bind. rewrite ingest_eq. simpl.
    destruct (IH (S i) (ins, errs ++ [mkDescriptor k (i + off) e]) st)
      as (ids & st' & -> & Happ).
    exists ids, st'. simpl. rewrite <- app_assoc. done.
  - apply (IH (S i) (ins, errs) st).
Qed.

Lemma elem_of_descriptors k off recs : ∀ i x,
  x ∈ descriptors k off i recs
  ↔ ∃ j e, recs !! j = Some (Some (Raise e))
           ∧ x = mkDescriptor k (i + j + off) e.
Proof.
  induction recs as [|r recs IH]; intros i x; simpl.
  - split; [by intros ?%elem_of_nil|]. by intros (j & e & ? & _).
  - assert (Hrest : x ∈ descriptors k off (S i) recs
                    ↔ ∃ j e, (r :: recs) !! S j = Some (Some (Raise e))
                             ∧ x = mkDescriptor k (i + S j + off) e).
    { rewrite IH. split; intros (j & e & Hj & ->); exists j, e;
        (split; [done|]); f_equal; lia. }
    destruct r as [[d|e0]|].
    + rewrite Hrest. split; [intros (j & e & Hj & ->); by exists (S j), e|].
      intros ([|j] & e & Hj & ->); [done|]. by exists j, e.
    + rewrite elem_of_cons, Hrest. split.
      * intros [->|(j & e & Hj & ->)]; [|by exists (S j), e].
        exists 0%nat, e0. split; [done|]. f_equal. lia.
      * intros ([|j] & e & Hj & ->); [|right; by exists j, e].
        left. injection Hj as <-. f_equal. lia.
    + rewrite Hrest. split; [intros (j & e & Hj & ->); by exists (S j), e|].
      intros ([|j] & e & Hj & ->); [done|]. by exists j, e.
Qed.

Lemma length_handled recs k off i :
  List.length (handled recs)
  = (List.length (accepted recs)
     + List.length (descriptors k off i recs))%nat.
Proof.
  revert i. induction recs as [|[[d|e]|] recs IH]; intros i; simpl;
    rewrite ?(IH (S i)); lia.
Qed.

Section OneLoop.
Context {P : Pydantic}.

Lemma csv_loop_records rows : ∀ i acc st,
  csv_loop i rows acc st
  = records_loop row 1 i (csv_record <$> rows) acc st.
Proof.
  induction rows as [|r rows IH]; intros i acc st; [done|].
  destruct r as [|c0 cols]; [apply IH|].
  cbn [csv_loop fmap list_fmap csv_record records_loop].
  destruct (is_header c0); [apply IH|].
  unfold bind. destruct (ingest row (i + 1) _ acc st) as [[a|e] st1];
    [apply IH|done].
Qed.

Lemma json_loop_records items : ∀ i acc st,
  json_loop i items acc st
  = records_loop json_index 0 i (json_record <$> items) acc st.
Proof.
  induction items as [|item items IH]; intros i acc st; [done|].
  cbn [json_loop fmap list_fmap json_record records_loop].
  rewrite Nat.add_0_r. unfold bind.
  destruct (ingest json_index i _ acc st) as [[a|e] st1]; [apply IH|done].
Qed.

Lemma text_loop_records lines : ∀ i acc st,
  text_loop i lines acc st
  = records_loop line 1 i (text_record <$> lines) acc st.
Proof.
  induction lines as [|l lines IH]; intros i acc st; [done|].
  cbn [text_loop fmap list_fmap records_loop]. unfold text_record at 1.
  destruct (PyStr.is_empty (PyStr.strip l)); [apply IH|].
  unfold bind. destruct (ingest line (i + 1) _ acc st) as [[a|e] st1];
    [apply IH|done].
Qed.

End OneLoop.

(** ** The bulk handler as three runs of the shared loop *)

(** The rows the csv reader yields for the payload, and its error. *)
Definition rows_of (payload : BulkDraws) : list (list string) :=
  match csv payload with
  | Some s => (Csv.reader_rows s).1
  | None => []
  end.

Definition reader_error (payload : BulkDraws) : option Csv.error :=
  match csv payload with
  | Some s => (Csv.reader_rows s).2
  | None => None
  end.

Definition items_of (payload : BulkDraws) : list value :=
  match json payload with Some l => l | None => [] end.

Definition lines_of (payload : BulkDraws) : list string :=
  match text payload with Some s => PyStr.splitlines s | None => [] end.

Section BulkStages.
Context {P : Pydantic}.

Definition csv_records (payload : BulkDraws) : list (option (outcome Draw)) :=
  csv_record <$> rows_of payload.

Definition json_records (payload : BulkDraws)
  : list (option (outcome Draw)) :=
  json_record <$> items_of payload.

Definition text_records (payload : BulkDraws)
  : list (option (outcome Draw)) :=
  text_record <$> lines_of payload.

(** All descriptors of a payload: csv rows, then json items, then lines. *)
Definition all_descriptors (payload : BulkDraws) : list descriptor :=
  descriptors row 1 0 (csv_records payload)
  ++ descriptors json_index 0 0 (json_records payload)
  ++ descriptors line 1 0 (text_records payload).

(** All accepted draws of a payload, in the same order. *)
Definition all_accepted (payload : BulkDraws) : list Draw :=
  accepted (csv_records payload) ++ accepted (json_records payload)
  ++ accepted (text_records payload).

Lemma csv_stage payload acc st :
  match nonempty_str (csv payload) with
  | Some s => csv_part s acc
  | None => ret acc
  end st
  = match records_loop row 1 0 (csv_records payload) acc st with
    | (Ok acc', st1) =>
        match reader_error payload with
        | Some e => (Raise (CsvError e), st1)
        | None => (Ok acc', st1)
        end
    | (Raise e, st1) => (Raise e, st1)
    end.
Proof.
  unfold csv_records, rows_of, reader_error.
  destruct (csv payload) as [[|c s]|]; [done| |done].
  cbn [nonempty_str PyStr.is_empty]. unfold csv_part.
  destruct (Csv.reader_rows (String c s)) as [rows err]. cbn [fst snd].
  unfold bind. rewrite csv_loop_records.
  destruct (records_loop row 1 0 (csv_record <$> rows) acc st)
    as [[acc'|e] st1]; [|done].
  by destruct err.
Qed.

Lemma json_stage payload acc st :
  match nonempty_list (json payload) with
  | Some items => json_loop 0 items acc
  | None => ret acc
  end st
  = records_loop json_index 0 0 (json_records payload) acc st.
Proof.
  unfold json_records, items_of.
  destruct (json payload) as [[|x l]|]; [done| |done].
  cbn [nonempty_list]. apply json_loop_records.
Qed.

Lemma text_stage payload acc st :
  match nonempty_str (text payload) with
  | Some s => text_loop 0 (PyStr.splitlines s) acc
  | None => ret acc
  end st
  = records_loop line 1 0 (text_records payload) acc st.
Proof.
  unfold text_records, lines_of.
  destruct (text payload) as [[|c s]|]; [done| |done].
  cbn [nonempty_str PyStr.is_empty]. apply text_loop_records.
Qed.

(** What the handler does with any payload. The csv rows are handled
    first; if the reader then has an error, that error is raised from the
    state reached; otherwise the json items and the lines follow and the
    response lists all identifiers and all descriptors. *)
Lemma add_draws_bulk_cases payload st :
  ∃ ids1 st1,
    appended st st1 ids1 (accepted (csv_records payload))
    ∧ match reader_error payload with
      | Some e => add_draws_bulk payload st = (Raise (CsvError e), st1)
      | None =>
          ∃ ids2 ids3 st2 st3,
            appended st1 st2 ids2 (accepted (json_records payload))
            ∧ appended st2 st3 ids3 (accepted (text_records payload))
            ∧ add_draws_bulk payload st
              = (Ok (mkResult (ids1 ++ ids2 ++ ids3)
                              (all_descriptors payload)), st3)
      end.
Proof.
  destruct (records_loop_spec row 1 (csv_records payload) 0%nat ([], []) st)
    as (ids1 & st1 & H1 & A1).
  cbn [fst snd app] in H1.
  exists ids1, st1. split; [done|].
  pose proof (csv_stage payload ([], []) st) as Hcsv. rewrite H1 in Hcsv.
  destruct (reader_error payload) as [e|].
  { unfold add_draws_bulk, bind. by rewrite Hcsv. }
  set (acc1 := (ids1, descriptors row 1 0 (csv_records payload))) in *.
  destruct (records_loop_spec json_index 0 (json_records payload) 0%nat
              acc1 st1) as (ids2 & st2 & H2 & A2).
  pose proof (json_stage payload acc1 st1) as Hjson. rewrite H2 in Hjson.
  set (acc2 := (acc1.1 ++ ids2,
                acc1.2 ++ descriptors json_index 0 0 (json_records payload)))
    in *.
  destruct (records_loop_spec line 1 (text_records payload) 0%nat acc2 st2)
    as (ids3 & st3 & H3 & A3).
  pose proof (text_stage payload acc2 st2) as Htext. rewrite H3 in Htext.
  exists ids2, ids3, st2, st3. split; [done|]. split; [done|].
  unfold add_draws_bulk, bind. rewrite Hcsv. cbv beta iota.
  rewrite Hjson. cbv beta iota. rewrite Htext. cbv beta iota.
  unfold ret, all_descriptors, acc2, acc1. cbn [fst snd].
  by rewrite <- !app_assoc.
Qed.

Lemma csv_readable_reader_error payload :
  csv_readable payload ↔ reader_error payload = None.
Proof.
  unfold csv_readable, reader_error.
  destruct (csv payload) as [[|c s]|]; simpl.
  - split; [done|]. by intros _ t.
  - split; [intros H; by apply H|]. by intros H t [= <-].
  - split; [done|]. by intros _ t.
Qed.

End BulkStages.

(** ** Properties of bulk ingestion *)

Lemma records_loop_passed k off recs : ∀ i acc st,
  Forall (λ r, r = None) recs → records_loop k off i recs acc st = (Ok acc, st).
Proof.
  induction recs as [|r recs IH]; intros i acc st Hall; [done|].
  apply Forall_cons in Hall as [-> Hall]. simpl. by apply IH.
Qed.

Lemma appended_prefix st st' ids ds :
  appended st st' ids ds →
  (∃ new, coll st' "draw" = coll st "draw" ++ new
          ∧ List.length new = List.length ids)
  ∧ ∀ other, other ≠ "draw" → coll st' other = coll st other.
Proof.
  intros (new & Hc & Hi & _ & Ho). split; [|done].
  exists new. split; [done|]. symmetry. by eapply Forall2_length.
Qed.

Section BulkProperties.
Context {P : Pydantic}.

Lemma Draw_new_raises kw e :
  Draw_new kw = Raise e → ∃ errs, e = ValidationError errs.
Proof.
  intros H. pose proof (Draw_new_inv kw) as Hinv. rewrite H in Hinv.
  destruct Hinv as [-> _]. eauto.
Qed.

Lemma add_draws_bulk_readable payload st :
  reader_error payload = None →
  ∃ r st',
    add_draws_bulk payload st = (Ok r, st')
    ∧ errors r = all_descriptors payload
    ∧ appended st st' (inserted r) (all_accepted payload).
Proof.
  intros Hread.
  destruct (add_draws_bulk_cases payload st) as (ids1 & st1 & A1 & H).
  rewrite Hread in H.
  destruct H as (ids2 & ids3 & st2 & st3 & A2 & A3 & ->).
  eexists _, _. split; [reflexivity|]. split; [done|]. simpl.
  unfold all_accepted. eauto using appended_trans.
Qed.

(** X1: with a csv part the reader reads to its end, the response lists the
    descriptors of the failed csv rows, then of the failed json items, then
    of the failed lines, each group in input order; and the documents
    appended to the draws are the accepted draws in that same order, each
    holding the fields of its draw and stored under the identifier the
    response lists at its place. *)
Theorem add_draws_bulk_response payload st :
  reader_error payload = None →
  ∃ r st' new,
    add_draws_bulk payload st = (Ok r, st')
    ∧ errors r
      = descriptors row 1 0 (csv_records payload)
        ++ descriptors json_index 0 0 (json_records payload)
        ++ descriptors line 1 0 (text_records payload)
    ∧ coll st' "draw" = coll st "draw" ++ new
    ∧ Forall2 (λ i stored, stored !! "_id" = Some i) (inserted r) new
    ∧ Forall2 stored_as
        (accepted (csv_records payload) ++ accepted (json_records payload)
         ++ accepted (text_records payload)) new.
Proof.
  intros Hread.
  destruct (add_draws_bulk_readable payload st Hread)
    as (r & st' & Hrun & He & new & Hc & Hi & Hd & _).
  exists r, st', new. split; [exact Hrun|]. split; [exact He|].
  split; [exact Hc|]. split; [exact Hi|exact Hd].
Qed.

(** X2: every record that is not passed over is accounted for once: the
    identifiers and the descriptors of the response together are as many as
    the data rows, the json items and the non-blank lines, and the draws
    grow by exactly as many documents as there are identifiers. *)
Theorem add_draws_bulk_accounting payload st :
  reader_error payload = None →
  ∃ r st',
    add_draws_bulk payload st = (Ok r, st')
    ∧ (List.length (inserted r) + List.length (errors r))%nat
      = (List.length (handled (csv_records payload))
         + List.length (handled (json_records payload))
         + List.length (handled (text_records payload)))%nat
    ∧ List.length (coll st' "draw")
      = (List.length (coll st "draw") + List.length (inserted r))%nat.
Proof.
  intros Hread.
  destruct (add_draws_bulk_cases payload st) as (ids1 & st1 & A1 & H).
  rewrite Hread in H.
  destruct H as (ids2 & ids3 & st2 & st3 & A2 & A3 & ->).
  eexists _, _. split; [reflexivity|]. simpl.
  pose proof A1 as (n1 & _ & L1 & D1 & _).
  pose proof A2 as (n2 & _ & L2 & D2 & _).
  pose proof A3 as (n3 & _ & L3 & D3 & _).
  apply Forall2_length in L1, L2, L3, D1, D2, D3.
  split.
  - unfold all_descriptors. rewrite !length_app.
    rewrite (length_handled (csv_records payload) row 1 0).
    rewrite (length_handled (json_records payload) json_index 0 0).
    rewrite (length_handled (text_records payload) line 1 0). lia.
  - destruct (appended_prefix _ _ _ _
                (appended_trans _ _ _ _ _ _ _ A1
                   (appended_trans _ _ _ _ _ _ _ A2 A3)))
      as [(new & -> & Hlen) _].
    rewrite length_app, Hlen. reflexivity.
Qed.

(** X3: whatever the payload and whatever the outcome, also when the
    handler raises, the draws stored before are still there, unchanged and
    in the same order, before anything new, and no other collection is
    touched. *)
Theorem add_draws_bulk_keeps_store payload st :
  (∃ new,
      coll (add_draws_bulk payload st).2 "draw" = coll st "draw" ++ new)
  ∧ ∀ other, other ≠ "draw" →
             coll (add_draws_bulk payload st).2 other = coll st other.
Proof.
  destruct (add_draws_bulk_cases payload st) as (ids1 & st1 & A1 & H).
  destruct (reader_error payload) as [e|].
  - rewrite H. simpl. destruct (appended_prefix _ _ _ _ A1) as [(new & ? & _) ?].
    eauto.
  - destruct H as (ids2 & ids3 & st2 & st3 & A2 & A3 & ->). simpl.
    destruct (appended_prefix _ _ _ _
                (appended_trans _ _ _ _ _ _ _ A1
                   (appended_trans _ _ _ _ _ _ _ A2 A3)))
      as [(new & ? & _) ?].
    eauto.
Qed.

(** X4: the handler returns a response exactly when the csv reader reads
    the csv part to its end; the only exception it ever raises is the
    reader's. *)
Theorem add_draws_bulk_returns_iff payload st :
  ((∃ r st', add_draws_bulk payload st = (Ok r, st'))
   ↔ reader_error payload = None)
  ∧ ∀ e st', add_draws_bulk payload st = (Raise e, st') →
             ∃ ce, e = CsvError ce ∧ reader_error payload = Some ce.
Proof.
  destruct (add_draws_bulk_cases payload st) as (ids1 & st1 & A1 & H).
  destruct (reader_error payload) as [ce|].
  - rewrite H. split.
    + split; [by intros (r & st' & ?)|done].
    + intros e st' [= <- <-]. eauto.
  - destruct H as (ids2 & ids3 & st2 & st3 & _ & _ & ->). split.
    + split; [done|]. intros _. eauto.
    + by intros e st'.
Qed.

(** X5: a json item is reported under its index counted from 0: an item
    that gives no draw has a descriptor under its index, with [TypeError]
    when the item is not an object, and every json descriptor of the
    response is that of the item at its index. *)
Theorem json_items_reported payload st :
  reader_error payload = None →
  ∃ r st',
    add_draws_bulk payload st = (Ok r, st')
    ∧ (∀ j item e,
          items_of payload !! j = Some item →
          draw_of_item item = Raise e →
          mkDescriptor json_index j e ∈ errors r)
    ∧ (∀ j item,
          items_of payload !! j = Some item →
          (∀ kw, item ≠ VDict kw) →
          mkDescriptor json_index j TypeError ∈ errors r)
    ∧ (∀ x, x ∈ errors r → key x = json_index →
            ∃ j item,
              items_of payload !! j = Some item
              ∧ draw_of_item item = Raise (error x) ∧ pos x = j).
Proof.
  intros Hread.
  destruct (add_draws_bulk_readable payload st Hread)
    as (r & st' & Hrun & He & _).
  exists r, st'. split; [done|]. rewrite He. unfold all_descriptors.
  assert (Hjson : ∀ j item e,
             items_of payload !! j = Some item →
             draw_of_item item = Raise e →
             mkDescriptor json_index j e
             ∈ descriptors json_index 0 0 (json_records payload)).
  { intros j item e Hj Hd. apply elem_of_descriptors. exists j, e.
    split; [|f_equal; lia].
    unfold json_records. rewrite list_lookup_fmap, Hj. simpl.
    unfold json_record. by rewrite Hd. }
  split; [|split].
  - intros j item e Hj Hd. rewrite !elem_of_app. right; left. eauto.
  - intros j item Hj Hno. rewrite !elem_of_app. right; left.
    apply (Hjson j item); [done|]. destruct item; try done.
    by destruct (Hno d).
  - intros x Hx Hk. rewrite !elem_of_app in Hx.
    destruct Hx as [Hx|[Hx|Hx]];
      apply elem_of_descriptors in Hx as (j & e & Hj & ->);
      try discriminate Hk.
    unfold json_records in Hj. rewrite list_lookup_fmap in Hj.
    destruct (items_of payload !! j) as [item|] eqn:Hitem; [|done].
    simpl in Hj. unfold json_record in Hj. injection Hj as Hj.
    exists j, item. split; [done|]. split; [done|]. simpl. lia.
Qed.

(** X6: a csv row is reported under its place among all rows the reader
    yields, counted from 1, the header rows and empty rows included; and
    every csv descriptor of the response is that of the data row at its
    place. *)
Theorem csv_row_positions payload st :
  reader_error payload = None →
  ∃ r st',
    add_draws_bulk payload st = (Ok r, st')
    ∧ (∀ j cells e,
          rows_of payload !! j = Some cells → data_row cells →
          draw_of_row cells = Raise e →
          mkDescriptor row (j + 1) e ∈ errors r)
    ∧ (∀ x, x ∈ errors r → key x = row →
            ∃ j cells,
              rows_of payload !! j = Some cells ∧ data_row cells
              ∧ draw_of_row cells = Raise (error x)
              ∧ pos x = (j + 1)%nat).
Proof.
  intros Hread.
  destruct (add_draws_bulk_readable payload st Hread)
    as (r & st' & Hrun & He & _).
  exists r, st'. split; [done|]. rewrite He. unfold all_descriptors.
  split.
  - intros j cells e Hj (c0 & cols & -> & Hh) Hd.
    rewrite !elem_of_app. left. apply elem_of_descriptors.
    exists j, e. split; [|f_equal; lia].
    unfold csv_records. rewrite list_lookup_fmap, Hj. simpl.
    by rewrite Hh, Hd.
  - intros x Hx Hk. rewrite !elem_of_app in Hx.
    destruct Hx as [Hx|[Hx|Hx]];
      apply elem_of_descriptors in Hx as (j & e & Hj & ->);
      try discriminate Hk.
    unfold csv_records in Hj. rewrite list_lookup_fmap in Hj.
    destruct (rows_of payload !! j) as [cells|] eqn:Hrow; [|done].
    simpl in Hj. destruct cells as [|c0 cols]; [done|]. simpl in Hj.
    destruct (is_header c0) eqn:Hh; [done|]. injection Hj as Hj.
    exists j, (c0 :: cols). split; [done|].
    split; [by exists c0, cols|]. split; [done|]. simpl. lia.
Qed.

(** X7: a payload in which every csv row is a header or empty, with no
    json item and only blank lines, gives the empty response and leaves the
    state as it was. *)
Theorem nothing_to_ingest payload st :
  reader_error payload = None →
  Forall (λ cells, ¬ data_row cells) (rows_of payload) →
  items_of payload = [] →
  Forall (λ l, PyStr.is_empty (PyStr.strip l) = true) (lines_of payload) →
  add_draws_bulk payload st = (Ok (mkResult [] []), st).
Proof.
  intros Hread Hrows Hitems Hlines.
  assert (H1 : Forall (λ r, r = None) (csv_records payload)).
  { unfold csv_records. apply Forall_fmap. eapply Forall_impl; [exact Hrows|].
    intros [|c0 cols] Hno; simpl; [done|].
    destruct (is_header c0) eqn:Hh; [done|]. destruct Hno. by exists c0, cols. }
  assert (H3 : Forall (λ r, r = None) (text_records payload)).
  { unfold text_records. apply Forall_fmap. eapply Forall_impl; [exact Hlines|].
    intros l Hl. simpl. unfold text_record. by rewrite Hl. }
  pose proof (csv_stage payload ([], []) st) as Hcsv.
  rewrite (records_loop_passed _ _ _ _ _ _ H1), Hread in Hcsv.
  pose proof (json_stage payload ([], []) st) as Hjson.
  unfold json_records in Hjson. rewrite Hitems in Hjson. simpl in Hjson.
  pose proof (text_stage payload ([], []) st) as Htext.
  rewrite (records_loop_passed _ _ _ _ _ _ H3) in Htext.
  unfold add_draws_bulk, bind. rewrite Hcsv. cbv beta iota.
  rewrite Hjson. unfold ret at 1. cbv beta iota. by rewrite Htext.
Qed.

(** X8: bulk ingestion does not look at the dates already stored: an
    accepted json item given twice is stored twice, so that the draws end
    with two documents of the same date, whatever was stored before. *)
Theorem add_draws_bulk_no_date_check item d st :
  draw_of_item item = Ok d →
  ∃ r st' doc1 doc2,
    add_draws_bulk (mkBulk None (Some [item; item]) None) st = (Ok r, st')
    ∧ List.length (inserted r) = 2%nat
    ∧ errors r = []
    ∧ coll st' "draw" = coll st "draw" ++ [doc1; doc2]
    ∧ doc1 !! "date" = Some (VDate (draw_date d))
    ∧ doc2 !! "date" = Some (VDate (draw_date d)).
Proof.
  intros Hd.
  destruct (add_draws_bulk_readable (mkBulk None (Some [item; item]) None) st
              eq_refl)
    as (r & st' & Hrun & He & new & Hc & Hi & Hs & _).
  unfold all_descriptors, all_accepted, csv_records, json_records,
    text_records in *.
  simpl in He, Hs. unfold json_record in He, Hs. rewrite Hd in He, Hs.
  simpl in He, Hs.
  apply Forall2_cons_inv_l in Hs as (doc1 & new1 & S1 & Hs & ->).
  apply Forall2_cons_inv_l in Hs as (doc2 & new2 & S2 & Hs & ->).
  apply Forall2_nil_inv_l in Hs as ->.
  apply Forall2_length in Hi.
  exists r, st', doc1, doc2. split; [done|]. split; [done|].
  split; [done|]. split; [done|].
  rewrite S1, S2 by done. by rewrite Draw_model_dump_date.
Qed.

(** X9: which exceptions a record can be reported with. A csv row never
    gives [IndexError]: it gives [ValueError] or a [ValidationError]; a line
    gives [IndexError], [ValueError] or a [ValidationError]; a json item
    gives [TypeError] or a [ValidationError]. *)
Theorem record_exceptions :
  (∀ c0 cols e,
      draw_of_row (c0 :: cols) = Raise e →
      e = ValueError ∨ ∃ errs, e = ValidationError errs)
  ∧ (∀ l e,
        draw_of_line l = Raise e →
        e = IndexError ∨ e = ValueError ∨ ∃ errs, e = ValidationError errs)
  ∧ (∀ item e,
        draw_of_item item = Raise e →
        e = TypeError ∨ ∃ errs, e = ValidationError errs).
Proof.
  split; [|split].
  - intros c0 cols e. unfold draw_of_row. cbn [lookup list_lookup].
    destruct (mapM PyStr.int (take 5 (drop 1 (c0 :: cols))));
      [|intros [= <-]; by left].
    destruct (mapM PyStr.int (take 2 (drop 6 (c0 :: cols))));
      [|intros [= <-]; by left].
    intros He. right. by eapply Draw_new_raises.
  - intros l e. unfold draw_of_line.
    destruct (_ !! 0%nat); [|intros [= <-]; by left].
    destruct (_ !! 1%nat); [|intros [= <-]; by left].
    destruct (mapM PyStr.int _); [|intros [= <-]; right; by left].
    destruct (_ !! 2%nat); [|intros [= <-]; by left].
    destruct (mapM PyStr.int _); [|intros [= <-]; right; by left].
    intros He. right; right. by eapply Draw_new_raises.
  - intros item e. destruct item; simpl; try (intros [= <-]; by left).
    intros He. right. by eapply Draw_new_raises.
Qed.

End BulkProperties.

Lemma string_app_assoc (a b c : string) : (a +:+ b) +:+ c = a +:+ (b +:+ c).
Proof.
  induction a as [|x a IH]; [done|].
  change (String x ((a +:+ b) +:+ c) = String x (a +:+ (b +:+ c))).
  by rewrite IH.
Qed.

Section TrailingFields.
Context {P : Pydantic}.

(** X10: what follows a third semicolon is not read: a line made of a date,
    a main field and a euro field gives the same outcome when a semicolon
    and any text are added at its end. *)
Theorem draw_of_line_trailing_fields d m e junk :
  PyStrFacts.contains semicolon d = false →
  PyStrFacts.contains semicolon m = false →
  PyStrFacts.contains semicolon e = false →
  draw_of_line (join3 d m e +:+ String semicolon junk)
  = draw_of_line (join3 d m e).
Proof.
  intros Hd Hm He.
  rewrite (draw_of_line_join3 d m e Hd Hm He).
  assert (Hparts : line_parts (join3 d m e +:+ String semicolon junk)
                   = PyStr.strip d :: PyStr.strip m :: PyStr.strip e
                     :: (PyStr.strip <$> PyStr.split semicolon junk)).
  { unfold line_parts, join3.
    rewrite string_app_assoc.
    change (String semicolon (m +:+ String semicolon e)
            +:+ String semicolon junk)
      with (String semicolon ((m +:+ String semicolon e)
                              +:+ String semicolon junk)).
    rewrite string_app_assoc.
    change (String semicolon e +:+ String semicolon junk)
      with (String semicolon (e +:+ String semicolon junk)).
    by rewrite !PyStrFacts.split_app_sep. }
  rewrite (draw_of_line_parts _ _ _ _ _ Hparts).
  by rewrite !PyStrFacts.split_ws_strip.
Qed.

End TrailingFields.

(** ** Worked payloads under the reference instances *)

Definition csv_with_header : string :=
  "date,m1,m2,m3,m4,m5,e1,e2" +:+ nl +:+ csv_valid_then_invalid.

Definition valid_item : value :=
  VDict (typed_kw "2024-02-02" [11; 12; 13; 14; 15] [1; 2]).

(** A header row, a valid and an invalid csv row; a json item that is no
    object and a valid one; a valid, a blank and a short line. *)
Definition mixed_payload : BulkDraws :=
  mkBulk (Some csv_with_header) (Some [VInt 5; valid_item])
         (Some text_with_short_line).

Definition main_too_short : exn :=
  ValidationError [mkFieldError "main" too_short].

Lemma add_draws_bulk_response_witness :
  reader_error mixed_payload = None
  ∧ ∃ r st',
      add_draws_bulk (P := Reference.pydantic) mixed_payload empty_db
      = (Ok r, st')
      ∧ errors r = [mkDescriptor row 3 euro_out_of_range;
                    mkDescriptor json_index 0 TypeError;
                    mkDescriptor line 3 main_too_short]
      ∧ List.length (coll st' "draw") = 3%nat.
Proof.
  split; [reflexivity|].
  destruct (add_draws_bulk_response (P := Reference.pydantic)
              mixed_payload empty_db eq_refl)
    as (r & st' & new & Hrun & He & Hc & _ & Hd).
  exists r, st'. split; [exact Hrun|]. split.
  - rewrite He. vm_compute. reflexivity.
  - rewrite Hc. apply Forall2_length in Hd. rewrite length_app, <- Hd.
    vm_compute. reflexivity.
Defined.

Lemma add_draws_bulk_accounting_witness :
  reader_error mixed_payload = None
  ∧ ∃ r st',
      add_draws_bulk (P := Reference.pydantic) mixed_payload empty_db
      = (Ok r, st')
      ∧ (List.length (inserted r) + List.length (errors r))%nat = 6%nat.
Proof.
  split; [reflexivity|].
  destruct (add_draws_bulk_accounting (P := Reference.pydantic)
              mixed_payload empty_db eq_refl)
    as (r & st' & Hrun & Hn & _).
  exists r, st'. split; [exact Hrun|]. rewrite Hn. vm_compute. reflexivity.
Defined.

Lemma json_items_reported_witness :
  reader_error mixed_payload = None
  ∧ ∃ r st',
      add_draws_bulk (P := Reference.pydantic) mixed_payload empty_db
      = (Ok r, st')
      ∧ mkDescriptor json_index 0 TypeError ∈ errors r.
Proof.
  split; [reflexivity|].
  destruct (json_items_reported (P := Reference.pydantic)
              mixed_payload empty_db eq_refl)
    as (r & st' & Hrun & _ & H & _).
  exists r, st'. split; [exact Hrun|].
  apply (H 0%nat (VInt 5)); [reflexivity|]. intros kw. discriminate.
Defined.

Lemma csv_row_positions_witness :
  reader_error mixed_payload = None
  ∧ ∃ r st',
      add_draws_bulk (P := Reference.pydantic) mixed_payload empty_db
      = (Ok r, st')
      ∧ mkDescriptor row 3 euro_out_of_range ∈ errors r.
Proof.
  split; [reflexivity|].
  destruct (csv_row_positions (P := Reference.pydantic)
              mixed_payload empty_db eq_refl)
    as (r & st' & Hrun & H & _).
  exists r, st'. split; [exact Hrun|].
  apply (H 2%nat invalid_row); [reflexivity|apply data_row_invalid_row|].
  reflexivity.
Defined.

(** A header row and an empty row, an empty json list, two blank lines. *)
Definition idle_payload : BulkDraws :=
  mkBulk (Some ("Date,a,b" +:+ nl +:+ nl)) (Some [])
         (Some ("  " +:+ nl +:+ nl)).

Lemma nothing_to_ingest_witness :
  reader_error idle_payload = None
  ∧ add_draws_bulk (P := Reference.pydantic) idle_payload empty_db
    = (Ok (mkResult [] []), empty_db).
Proof.
  split; [reflexivity|].
  apply (nothing_to_ingest (P := Reference.pydantic)).
  - reflexivity.
  - change (rows_of idle_payload) with [["Date"; "a"; "b"]; []].
    repeat constructor.
    + intros (c0 & cols & [= <- <-] & Hh). discriminate Hh.
    + intros (c0 & cols & [=] & _).
  - reflexivity.
  - change (lines_of idle_payload) with ["  "; ""]. by repeat constructor.
Defined.

Lemma add_draws_bulk_no_date_check_witness :
  draw_of_item (P := Reference.pydantic) valid_item
  = Ok (mkDraw (mkdate 2024 2 2) [11; 12; 13; 14; 15] [1; 2] None)
  ∧ ∃ r st' doc1 doc2,
      add_draws_bulk (P := Reference.pydantic)
        (mkBulk None (Some [valid_item; valid_item]) None) empty_db
      = (Ok r, st')
      ∧ coll st' "draw" = [doc1; doc2]
      ∧ doc1 !! "date" = Some (VDate (mkdate 2024 2 2))
      ∧ doc2 !! "date" = Some (VDate (mkdate 2024 2 2)).
Proof.
  assert (Hitem : draw_of_item (P := Reference.pydantic) valid_item
                  = Ok (mkDraw (mkdate 2024 2 2) [11; 12; 13; 14; 15]
                               [1; 2] None))
    by (vm_compute; reflexivity).
  split; [exact Hitem|].
  destruct (add_draws_bulk_no_date_check (P := Reference.pydantic)
              valid_item _ empty_db Hitem)
    as (r & st' & doc1 & doc2 & Hrun & _ & _ & Hc & H1 & H2).
  exists r, st', doc1, doc2. split; [exact Hrun|]. split; [exact Hc|].
  split; [exact H1|exact H2].
Defined.

Lemma draw_of_line_trailing_fields_witness :
  PyStrFacts.contains semicolon "2024-01-05" = false
  ∧ draw_of_line (P := Reference.pydantic)
      "2024-01-05; 1 2 3 4 5; 6 7; checked by hand"
    = draw_of_line (P := Reference.pydantic) "2024-01-05; 1 2 3 4 5; 6 7".
Proof.
  split; [reflexivity|].
  apply (draw_of_line_trailing_fields (P := Reference.pydantic)
           "2024-01-05" " 1 2 3 4 5" " 6 7" " checked by hand");
    reflexivity.
Defined.

(** ** More on validation: [Prediction] *)

Lemma v_main_ok (l : list Z) :
  List.length l = 5%nat →
  (v_main l = inr l ↔ valid_numbers 5 1 50 l)
  ∧ (∀ l', v_main l = inr l' → l' = l).
Proof.
  intros Hlen. unfold v_main, valid_numbers.
  destruct (Nat.eqb_spec (len_set l) 5) as [Hs|Hs]; simpl.
  - destruct (all_in 1 50 l) eqn:Ha; simpl.
    + split; [|by intros l' [= <-]]. split; [|done]. intros _.
      split; [done|]. split.
      * apply len_set_NoDup. congruence.
      * by apply all_in_Forall.
    + split; [|done]. split; [done|]. intros (_ & _ & HF).
      apply all_in_Forall in HF. congruence.
  - split; [|done]. split; [done|]. intros (_ & HN & _).
    apply len_set_NoDup in HN. congruence.
Qed.

Lemma v_euro_ok (l : list Z) :
  List.length l = 2%nat →
  (v_euro l = inr l ↔ valid_numbers 2 1 12 l)
  ∧ (∀ l', v_euro l = inr l' → l' = l).
Proof.
  intros Hlen. unfold v_euro, valid_numbers.
  destruct (Nat.eqb_spec (len_set l) 2) as [Hs|Hs]; simpl.
  - destruct (all_in 1 12 l) eqn:Ha; simpl.
    + split; [|by intros l' [= <-]]. split; [|done]. intros _.
      split; [done|]. split.
      * apply len_set_NoDup. congruence.
      * by apply all_in_Forall.
    + split; [|done]. split; [done|]. intros (_ & _ & HF).
      apply all_in_Forall in HF. congruence.
  - split; [|done]. split; [done|]. intros (_ & HN & _).
    apply len_set_NoDup in HN. congruence.
Qed.

Lemma validators_same_main (l l' : list Z) :
  validate_main l = inr l' ↔ v_main l = inr l'.
Proof.
  unfold validate_main, v_main.
  by destruct (negb (Nat.eqb (len_set l) 5)), (negb (all_in 1 50 l)).
Qed.

Lemma validators_same_euro (l l' : list Z) :
  validate_euro l = inr l' ↔ v_euro l = inr l'.
Proof.
  unfold validate_euro, v_euro.
  by destruct (negb (Nat.eqb (len_set l) 2)), (negb (all_in 1 12 l)).
Qed.

Section PredictionValidation.
Context {P : Pydantic}.

Lemma int_list_field_inv n validator v l :
  int_list_field n validator v = inr l →
  ∃ items zs,
    list_validator v = Some items ∧ mapM int_validator items = Some zs
    ∧ List.length zs = n ∧ validator zs = inr l.
Proof.
  unfold int_list_field.
  destruct (list_validator v) as [items|] eqn:Hl; [|done].
  destruct (mapM int_validator items) as [zs|] eqn:Hm; [|done].
  destruct (Nat.ltb_spec (List.length zs) n); [done|].
  destruct (Nat.ltb_spec n (List.length zs)); [done|].
  destruct (validator zs) as [msg|zs'] eqn:Hv; [done|].
  intros [= <-]. exists items, zs.
  split; [done|]. split; [exact Hm|]. split; [lia|done].
Qed.

Lemma int_list_field_intro n validator v items zs l :
  list_validator v = Some items → mapM int_validator items = Some zs →
  List.length zs = n → validator zs = inr l →
  int_list_field n validator v = inr l.
Proof.
  intros Hl Hm Hn Hv. unfold int_list_field. rewrite Hl, Hm, Hn, Hv.
  by rewrite Nat.ltb_irrefl.
Qed.

(** X11: [Draw] and [Prediction] accept the same numbers: a value passes as
    the [main] field of the one exactly when it passes as the [main] field
    of the other, with the same result, and likewise for [euro]. *)
Theorem number_fields_agree (v : value) (l : list Z) :
  (int_list_field 5 validate_main v = inr l
   ↔ int_list_field 5 v_main v = inr l)
  ∧ (int_list_field 2 validate_euro v = inr l
     ↔ int_list_field 2 v_euro v = inr l).
Proof.
  split; split; intros (items & zs & Hl & Hm & Hn & Hv)%int_list_field_inv;
    eapply int_list_field_intro; eauto;
    first [ by apply validators_same_main | by apply validators_same_euro ].
Qed.

Lemma required_pred_main_ok kw l :
  required kw "main" (int_list_field 5 v_main) = inr l →
  as_int_list kw "main" = Some l ∧ valid_numbers 5 1 50 l.
Proof.
  unfold required, as_int_list.
  destruct (kw !! "main") as [v|]; [|done].
  destruct (int_list_field 5 v_main v) as [r|l0] eqn:Hf; [done|].
  intros [= ->].
  apply int_list_field_inv in Hf as (items & zs & -> & -> & Hn & Hv).
  destruct (v_main_ok zs Hn) as [Hiff Heq].
  specialize (Heq _ Hv) as ->. split; [done|]. by apply Hiff.
Qed.

Lemma required_pred_euro_ok kw l :
  required kw "euro" (int_list_field 2 v_euro) = inr l →
  as_int_list kw "euro" = Some l ∧ valid_numbers 2 1 12 l.
Proof.
  unfold required, as_int_list.
  destruct (kw !! "euro") as [v|]; [|done].
  destruct (int_list_field 2 v_euro v) as [r|l0] eqn:Hf; [done|].
  intros [= ->].
  apply int_list_field_inv in Hf as (items & zs & -> & -> & Hn & Hv).
  destruct (v_euro_ok zs Hn) as [Hiff Heq].
  specialize (Heq _ Hv) as ->. split; [done|]. by apply Hiff.
Qed.

Lemma required_named {A} kw name (check : value → reason + A) fe :
  required kw name check = inl fe → loc fe = name.
Proof.
  unfold required. destruct (kw !! name) as [v|]; [destruct (check v)|];
    by intros [= <-].
Qed.

(** The errors [Prediction] reports, field by field. *)
Definition Prediction_errors (kw : doc) : list field_error :=
  errors_of (required kw "main" (int_list_field 5 v_main))
  ++ errors_of (required kw "euro" (int_list_field 2 v_euro))
  ++ errors_of (optional kw "seed" None opt_str_field)
  ++ errors_of (optional kw "method" "consensus" str_field)
  ++ errors_of (optional kw "notes" None opt_str_field).

Lemma Prediction_new_inv kw :
  match Prediction_new kw with
  | Ok p =>
      required kw "main" (int_list_field 5 v_main) = inr (pred_main p)
      ∧ required kw "euro" (int_list_field 2 v_euro) = inr (pred_euro p)
      ∧ optional kw "seed" None opt_str_field = inr (pred_seed p)
      ∧ optional kw "method" "consensus" str_field = inr (pred_method p)
      ∧ optional kw "notes" None opt_str_field = inr (pred_notes p)
  | Raise e =>
      e = ValidationError (Prediction_errors kw) ∧ Prediction_errors kw ≠ []
  end.
Proof.
  unfold Prediction_new, Prediction_errors.
  destruct (required kw "main" (int_list_field 5 v_main)),
    (required kw "euro" (int_list_field 2 v_euro)),
    (optional kw "seed" None opt_str_field),
    (optional kw "method" "consensus" str_field),
    (optional kw "notes" None opt_str_field); simpl; done.
Qed.

(** X12: [Prediction] accepts an input only if its [main] is a list of
    exactly 5 distinct integers in 1..50 and its [euro] a list of exactly 2
    distinct integers in 1..12, and the record holds these values; where
    [method], [seed] or [notes] is absent the record holds ["consensus"],
    respectively nothing; an input that violates the clause on [main] or on
    [euro] is rejected with a [ValidationError] that has an entry naming
    that field; and [Prediction] fails in no other way. *)
Theorem Prediction_new_spec (kw : doc) :
  (∀ p, Prediction_new kw = Ok p →
        as_int_list kw "main" = Some (pred_main p)
        ∧ valid_numbers 5 1 50 (pred_main p)
        ∧ as_int_list kw "euro" = Some (pred_euro p)
        ∧ valid_numbers 2 1 12 (pred_euro p)
        ∧ (kw !! "method" = None → pred_method p = "consensus")
        ∧ (kw !! "seed" = None → pred_seed p = None)
        ∧ (kw !! "notes" = None → pred_notes p = None))
  ∧ (¬ main_ok kw →
     ∃ errs, Prediction_new kw = Raise (ValidationError errs)
             ∧ "main" ∈ loc <$> errs)
  ∧ (¬ euro_ok kw →
     ∃ errs, Prediction_new kw = Raise (ValidationError errs)
             ∧ "euro" ∈ loc <$> errs)
  ∧ (∀ e, Prediction_new kw = Raise e →
          ∃ errs, e = ValidationError errs ∧ errs ≠ []).
Proof.
  pose proof (Prediction_new_inv kw) as Hinv.
  split; [|split; [|split]].
  - intros p Hp. rewrite Hp in Hinv.
    destruct Hinv as (Hm & He & Hs & Ht & Hn).
    apply required_pred_main_ok in Hm as [? ?].
    apply required_pred_euro_ok in He as [? ?].
    repeat (split; [done|]). unfold optional in Hs, Ht, Hn.
    split; [|split]; intros Habs; rewrite Habs in *; congruence.
  - intros Hno.
    destruct (required kw "main" (int_list_field 5 v_main)) as [fe|l] eqn:Hr.
    2: { destruct Hno. exists l. by apply required_pred_main_ok. }
    destruct (Prediction_new kw) as [p|e].
    + destruct Hinv as (Hm & _). congruence.
    + destruct Hinv as [-> _]. eexists. split; [reflexivity|].
      unfold Prediction_errors. rewrite Hr, !fmap_app, !elem_of_app.
      left. simpl. rewrite (required_named _ _ _ _ Hr).
      apply list_elem_of_here.
  - intros Hno.
    destruct (required kw "euro" (int_list_field 2 v_euro)) as [fe|l] eqn:Hr.
    2: { destruct Hno. exists l. by apply required_pred_euro_ok. }
    destruct (Prediction_new kw) as [p|e].
    + destruct Hinv as (_ & He & _). congruence.
    + destruct Hinv as [-> _]. eexists. split; [reflexivity|].
      unfold Prediction_errors. rewrite Hr, !fmap_app, !elem_of_app.
      right; left. simpl. rewrite (required_named _ _ _ _ Hr).
      apply list_elem_of_here.
  - intros e He. rewrite He in Hinv. destruct Hinv as [-> Hne]. eauto.
Qed.

End PredictionValidation.

(** ** More on the match engine *)

Lemma size_inter_le (a b : list Z) :
  (size (list_to_set a ∩ list_to_set b : gset Z)
   ≤ Nat.min (List.length a) (List.length b))%nat.
Proof.
  apply Nat.min_glb.
  - etrans; [|apply size_list_to_set_le].
    apply subseteq_size, intersection_subseteq_l.
  - etrans; [|apply size_list_to_set_le].
    apply subseteq_size, intersection_subseteq_r.
Qed.

Lemma size_inter_zero (a b : list Z) :
  size (list_to_set a ∩ list_to_set b : gset Z) = 0%nat
  ↔ ∀ z, z ∈ a → z ∉ b.
Proof.
  rewrite size_empty_iff. split.
  - intros He z Ha Hb.
    assert (Hz : z ∈ (list_to_set a ∩ list_to_set b : gset Z)).
    { apply elem_of_intersection. by rewrite !elem_of_list_to_set. }
    rewrite (He z) in Hz. by apply elem_of_empty in Hz.
  - intros Hd z. split; [|by intros ?%elem_of_empty].
    rewrite elem_of_intersection, !elem_of_list_to_set.
    intros [Ha Hb]. by destruct (Hd z Ha).
Qed.

Lemma count_matches_lists (p d : doc) (pm dm pe de : list Z) :
  p !! "main" = Some (int_list_value pm) →
  d !! "main" = Some (int_list_value dm) →
  p !! "euro" = Some (int_list_value pe) →
  d !! "euro" = Some (int_list_value de) →
  count_matches p d
  = Ok (mkMatch (size (list_to_set pm ∩ list_to_set dm : gset Z))
                (size (list_to_set pe ∩ list_to_set de : gset Z))
                (size (list_to_set pm ∩ list_to_set dm : gset Z)
                 + size (list_to_set pe ∩ list_to_set de : gset Z))).
Proof.
  intros Hpm Hdm Hpe Hde.
  unfold count_matches, dict_get. rewrite Hpm, Hdm, Hpe, Hde.
  rewrite !py_set_int_list. by rewrite !size_inter_atoms.
Qed.

(** X13: for records whose [main] and [euro] hold lists of integers,
    [count_matches] returns, and neither count exceeds the length of either
    of the two lists it compares; the total is 0 exactly when no number of
    the prediction occurs in the corresponding list of the draw. *)
Theorem count_matches_bounds (p d : doc) (pm dm pe de : list Z) :
  p !! "main" = Some (int_list_value pm) →
  d !! "main" = Some (int_list_value dm) →
  p !! "euro" = Some (int_list_value pe) →
  d !! "euro" = Some (int_list_value de) →
  ∃ m, count_matches p d = Ok m
       ∧ (m_main m ≤ Nat.min (List.length pm) (List.length dm))%nat
       ∧ (m_euro m ≤ Nat.min (List.length pe) (List.length de))%nat
       ∧ (m_total m = 0%nat
          ↔ (∀ z, z ∈ pm → z ∉ dm) ∧ (∀ z, z ∈ pe → z ∉ de)).
Proof.
  intros Hpm Hdm Hpe Hde.
  eexists. split; [by apply (count_matches_lists p d pm dm pe de)|].
  simpl. split; [apply size_inter_le|]. split; [apply size_inter_le|].
  rewrite <- !size_inter_zero. lia.
Qed.

Lemma count_matches_bounds_witness :
  ∃ m, count_matches example_prediction example_draw = Ok m
       ∧ (m_main m ≤ 5)%nat ∧ (m_euro m ≤ 2)%nat.
Proof.
  destruct (count_matches_bounds example_prediction example_draw
              [1; 2; 3; 4; 5] [3; 4; 5; 6; 7] [1; 2] [2; 12]
              eq_refl eq_refl eq_refl eq_refl)
    as (m & Hm & Hmain & Heuro & _).
  exists m. split; [exact Hm|]. split; [exact Hmain|exact Heuro].
Defined.

(** X14: the result of [count_matches] depends only on which numbers a
    record holds, not on their order or on repetitions: two predictions
    whose [main] lists have the same members and whose [euro] lists have the
    same members give the same result against every draw, whatever the draw
    holds. *)
Theorem count_matches_same_numbers (p p' d : doc) (pm pm' pe pe' : list Z) :
  p !! "main" = Some (int_list_value pm) →
  p' !! "main" = Some (int_list_value pm') →
  p !! "euro" = Some (int_list_value pe) →
  p' !! "euro" = Some (int_list_value pe') →
  (∀ z, z ∈ pm ↔ z ∈ pm') →
  (∀ z, z ∈ pe ↔ z ∈ pe') →
  count_matches p d = count_matches p' d.
Proof.
  intros Hpm Hpm' Hpe Hpe' Hm He.
  assert (Hsame : ∀ a b : list Z, (∀ z, z ∈ a ↔ z ∈ b) →
            (list_to_set (AInt <$> a) : gset atom) = list_to_set (AInt <$> b)).
  { intros a b Hab. apply set_eq. intros x.
    rewrite !elem_of_list_to_set, !list_elem_of_fmap.
    split; intros (z & -> & Hz); exists z; (split; [done|]); by apply Hab. }
  unfold count_matches, dict_get. rewrite Hpm, Hpm', Hpe, Hpe'.
  rewrite !py_set_int_list. by rewrite (Hsame _ _ Hm), (Hsame _ _ He).
Qed.

Definition shuffled_prediction : doc :=
  <["euro" := int_list_value [2; 1; 2]]>
    (<["main" := int_list_value [5; 4; 3; 2; 1]]> ∅).

Lemma count_matches_same_numbers_witness :
  count_matches shuffled_prediction example_draw = Ok (mkMatch 3 1 4).
Proof.
  rewrite <- (count_matches_same_numbers example_prediction
                shuffled_prediction example_draw
                [1; 2; 3; 4; 5] [5; 4; 3; 2; 1] [1; 2] [2; 1; 2]
                eq_refl eq_refl eq_refl eq_refl).
  - vm_compute. reflexivity.
  - intros z. rewrite !elem_of_cons, !elem_of_nil. tauto.
  - intros z. rewrite !elem_of_cons, !elem_of_nil. tauto.
Defined.

(** X15: a record without a [main] key counts as one with no main numbers,
    so the main count is 0 and the total is the euro count; a record whose
    [main] is present but is [None] makes [count_matches] raise a
    [TypeError], on whichever side the record stands. *)
Theorem count_matches_missing_field (p d : doc) (dm pe de : list Z) :
  d !! "main" = Some (int_list_value dm) →
  p !! "euro" = Some (int_list_value pe) →
  d !! "euro" = Some (int_list_value de) →
  (p !! "main" = None →
   ∃ e, count_matches p d = Ok (mkMatch 0 e e)
        ∧ count_matches d p = Ok (mkMatch 0 e e))
  ∧ (p !! "main" = Some VNone →
     count_matches p d = Raise TypeError
     ∧ count_matches d p = Raise TypeError).
Proof.
  intros Hdm Hpe Hde. split.
  - intros Hnone.
    exists (size (list_to_set (AInt <$> pe) ∩ list_to_set (AInt <$> de)
                  : gset atom)).
    rewrite (count_matches_comm d p).
    assert (count_matches p d
            = Ok (mkMatch 0
                    (size (list_to_set (AInt <$> pe)
                           ∩ list_to_set (AInt <$> de) : gset atom))
                    (size (list_to_set (AInt <$> pe)
                           ∩ list_to_set (AInt <$> de) : gset atom))))
      as ->; [|done].
    unfold count_matches, dict_get. rewrite Hnone, Hdm, Hpe, Hde.
    rewrite !py_set_int_list. simpl.
    rewrite intersection_empty_l_L, size_empty. reflexivity.
  - intros Hnull. rewrite (count_matches_comm d p).
    assert (count_matches p d = Raise TypeError) as ->; [|done].
    unfold count_matches, dict_get. rewrite Hnull. reflexivity.
Qed.

Definition euro_only : doc := <["euro" := int_list_value [2; 9]]> ∅.

Lemma count_matches_missing_field_witness :
  ∃ e, count_matches euro_only example_draw = Ok (mkMatch 0 e e).
Proof.
  destruct (count_matches_missing_field euro_only example_draw
              [3; 4; 5; 6; 7] [2; 9] [2; 12] eq_refl eq_refl eq_refl)
    as [H _].
  destruct (H eq_refl) as (e & He & _). exists e. exact He.
Defined.

Lemma Draw_model_dump_numbers d :
  Draw_model_dump d !! "main" = Some (int_list_value (draw_main d))
  ∧ Draw_model_dump d !! "euro" = Some (int_list_value (draw_euro d)).
Proof.
  unfold Draw_model_dump.
  split; [rewrite !lookup_insert_ne by done|rewrite lookup_insert_ne by done];
    apply lookup_insert_eq.
Qed.

Lemma Prediction_model_dump_numbers p :
  Prediction_model_dump p !! "main" = Some (int_list_value (pred_main p))
  ∧ Prediction_model_dump p !! "euro" = Some (int_list_value (pred_euro p)).
Proof.
  unfold Prediction_model_dump.
  split; rewrite !lookup_insert_ne by done; apply lookup_insert_eq.
Qed.

Section ValidatedMatches.
Context {P : Pydantic}.

(** X16: for a prediction and a draw that both passed validation,
    [count_matches] on their dumps returns, with at most 5 main matches, at
    most 2 euro matches and a total of at most 7; and the total is 7 only
    if the two records hold the same main numbers and the same euro
    numbers. *)
Theorem count_matches_validated (kwp kwd : doc) (p : Prediction) (d : Draw) :
  Prediction_new kwp = Ok p →
  Draw_new kwd = Ok d →
  ∃ m, count_matches (Prediction_model_dump p) (Draw_model_dump d) = Ok m
       ∧ (m_main m ≤ 5)%nat ∧ (m_euro m ≤ 2)%nat ∧ (m_total m ≤ 7)%nat
       ∧ (m_total m = 7%nat →
          (∀ z, z ∈ pred_main p ↔ z ∈ draw_main d)
          ∧ (∀ z, z ∈ pred_euro p ↔ z ∈ draw_euro d)).
Proof.
  intros Hp Hd.
  pose proof (Prediction_new_inv kwp) as Hpi. rewrite Hp in Hpi.
  destruct Hpi as (Hpm & Hpe & _).
  apply required_pred_main_ok in Hpm as [_ (Lpm & Npm & _)].
  apply required_pred_euro_ok in Hpe as [_ (Lpe & Npe & _)].
  pose proof (Draw_new_inv kwd) as Hdi. rewrite Hd in Hdi.
  destruct Hdi as (_ & Hdm & Hde).
  apply required_main_ok in Hdm as [_ (Ldm & Ndm & _)].
  apply required_euro_ok in Hde as [_ (Lde & Nde & _)].
  destruct (Prediction_model_dump_numbers p) as [Ppm Ppe].
  destruct (Draw_model_dump_numbers d) as [Pdm Pde].
  eexists. split; [by apply (count_matches_lists _ _ _ _ _ _ Ppm Pdm Ppe Pde)|].
  simpl.
  pose proof (size_inter_le (pred_main p) (draw_main d)) as Bm.
  pose proof (size_inter_le (pred_euro p) (draw_euro d)) as Be.
  rewrite Lpm, Ldm in Bm. rewrite Lpe, Lde in Be. simpl in Bm, Be.
  split; [lia|]. split; [lia|]. split; [lia|].
  intros Htot.
  assert (Hfull : ∀ a b : list Z, NoDup a → NoDup b →
            List.length a = List.length b →
            size (list_to_set a ∩ list_to_set b : gset Z) = List.length a →
            ∀ z, z ∈ a ↔ z ∈ b).
  { intros a b Na Nb Hlen Hsz.
    assert (Ha : (list_to_set a ∩ list_to_set b : gset Z) = list_to_set a).
    { apply set_subseteq_size_eq; [apply intersection_subseteq_l|].
      rewrite Hsz, size_list_to_set; done. }
    assert (Hb : (list_to_set a ∩ list_to_set b : gset Z) = list_to_set b).
    { apply set_subseteq_size_eq; [apply intersection_subseteq_r|].
      rewrite Hsz, size_list_to_set; [lia|done]. }
    intros z. rewrite <- (elem_of_list_to_set (C := gset Z) z a),
      <- (elem_of_list_to_set (C := gset Z) z b).
    by rewrite <- Ha, Hb at 1. }
  split; apply Hfull; try done; lia.
Qed.

End ValidatedMatches.

Lemma count_matches_validated_witness :
  ∃ m, count_matches
         (Prediction_model_dump example_pred)
         (Draw_model_dump draw_2024_01_05) = Ok m
       ∧ (m_total m ≤ 7)%nat.
Proof.
  destruct (count_matches_validated (P := Reference.pydantic)
              (<["euro" := int_list_value [1; 2]]>
                 (<["main" := int_list_value [1; 2; 3; 4; 5]]> ∅))
              (typed_kw "2024-01-05" [1; 2; 3; 4; 5] [6; 7])
              example_pred draw_2024_01_05)
    as (m & Hm & _ & _ & Htot & _).
  - vm_compute. reflexivity.
  - vm_compute. reflexivity.
  - exists m. split; [exact Hm|exact Htot].
Defined.

(** ** Listings *)

(** What [cursor.limit(n)] returns: some first part of the documents, and
    for a positive [n] the first [n] of them. *)
Class MongoLimit {G : Mongo} := {
  cursor_limit_prefix : ∀ n l, cursor_limit n l `prefix_of` l;
  cursor_limit_pos : ∀ n l, 0 < n → cursor_limit n l = take (Z.to_nat n) l;
}.

Module ReferenceLimit.
Import Reference.

Lemma ref_limit_prefix n l : ref_limit n l `prefix_of` l.
Proof.
  unfold ref_limit. destruct (n =? 0); [done|].
  exists (drop (Z.to_nat (Z.abs n)) l). by rewrite take_drop.
Qed.

Lemma ref_limit_pos n l : 0 < n → ref_limit n l = take (Z.to_nat n) l.
Proof.
  intros Hn. unfold ref_limit.
  destruct (Z.eqb_spec n 0); [lia|]. by rewrite Z.abs_eq by lia.
Qed.

#[export] Instance mongo_limit : MongoLimit (G := mongo) := {|
  cursor_limit_prefix := ref_limit_prefix;
  cursor_limit_pos := ref_limit_pos;
|}.

End ReferenceLimit.

(** The documents of a list stand in descending order of the field [k]. *)
Definition descending {G : Mongo} (k : string) (docs : list doc) : Prop :=
  ∀ i j a b, (i < j)%nat → docs !! i = Some a → docs !! j = Some b →
             bson_le (b !! k) (a !! k) = true.

Lemma StronglySorted_lookup {A} (R : A → A → Prop) (l : list A) :
  StronglySorted R l →
  ∀ i j a b, (i < j)%nat → l !! i = Some a → l !! j = Some b → R a b.
Proof.
  induction 1 as [|x l Hs IH Hall]; intros i j a b Hij Hi Hj.
  - by rewrite lookup_nil in Hi.
  - destruct j as [|j]; [lia|]. simpl in Hj.
    destruct i as [|i]; simpl in Hi.
    + injection Hi as <-. eapply Forall_forall in Hall; [done|].
      by eapply list_elem_of_lookup_2.
    + eapply IH; [|done..]. lia.
Qed.

Section Listings.
Context {G : Mongo} {L : MongoLimit}.

(** The listing of a collection sorted by one key, without a limit. *)
Definition listing (name k : string) (st : db) : list doc :=
  cursor_sort [(k, -1)] (coll st name).

Lemma listing_perm name k st : listing name k st ≡ₚ coll st name.
Proof. apply cursor_sort_perm. Qed.

Lemma listing_descending name k st : descending k (listing name k st).
Proof.
  intros i j a b Hij Hi Hj.
  by apply (StronglySorted_lookup _ _ (cursor_sort_desc k (coll st name))
              i j a b).
Qed.

Lemma get_documents_listing name k limit st :
  get_documents name (Some ∅) limit (Some [(k, -1)]) st
  = (Ok (match limit with
         | Some n => if n =? 0 then listing name k st
                     else cursor_limit n (listing name k st)
         | None => listing name k st
         end), st).
Proof.
  unfold get_documents, bind. rewrite find_eq.
  unfold or_empty, truthy_dict. rewrite map_size_empty. simpl.
  rewrite filter_matches_empty. reflexivity.
Qed.

(** X17: [GET /draws] never fails and leaves the store as it is. Without a
    limit, or with limit 0, it returns every stored draw once, in an order
    in which no draw stands before one of a later date; with a positive
    limit [n] it returns the first [n] draws of that listing, so the [n]
    latest ones; with any limit it returns a first part of the listing. *)
Theorem list_draws_spec (st : db) :
  ∃ all,
    list_draws None st = (Ok all, st)
    ∧ list_draws (Some 0) st = (Ok all, st)
    ∧ all ≡ₚ coll st "draw"
    ∧ descending "date" all
    ∧ (∀ i j a b x y,
          (i < j)%nat → all !! i = Some a → all !! j = Some b →
          a !! "date" = Some (VDate x) → b !! "date" = Some (VDate y) →
          date_leb y x = true)
    ∧ (∀ n, 0 < n →
            list_draws (Some n) st = (Ok (take (Z.to_nat n) all), st))
    ∧ (∀ n, ∃ docs, list_draws (Some n) st = (Ok docs, st)
                    ∧ docs `prefix_of` all).
Proof.
  exists (listing "draw" "date" st). unfold list_draws.
  rewrite !get_documents_listing. simpl.
  split; [done|]. split; [done|]. split; [apply listing_perm|].
  split; [apply listing_descending|]. split; [|split].
  - intros i j a b x y Hij Hi Hj Ha Hb.
    rewrite <- bson_le_date, <- Ha, <- Hb.
    by apply (listing_descending "draw" "date" st i j).
  - intros n Hn. rewrite get_documents_listing.
    destruct (Z.eqb_spec n 0); [lia|]. by rewrite cursor_limit_pos.
  - intros n. rewrite get_documents_listing.
    destruct (n =? 0); eexists; (split; [reflexivity|]);
      [done|apply cursor_limit_prefix].
Qed.

(** X18: [GET /predictions] never fails and leaves the store as it is.
    Without a limit, or with limit 0, it returns every stored prediction
    once, in an order in which none stands before one created later; with
    a positive limit [n] it returns the first [n] of that listing. *)
Theorem list_predictions_spec (st : db) :
  ∃ all,
    list_predictions None st = (Ok all, st)
    ∧ list_predictions (Some 0) st = (Ok all, st)
    ∧ all ≡ₚ coll st "prediction"
    ∧ descending "created_at" all
    ∧ (∀ i j a b s t,
          (i < j)%nat → all !! i = Some a → all !! j = Some b →
          a !! "created_at" = Some (VDatetime s) →
          b !! "created_at" = Some (VDatetime t) →
          (t ≤ s)%N)
    ∧ (∀ n, 0 < n →
            list_predictions (Some n) st
            = (Ok (take (Z.to_nat n) all), st))
    ∧ (∀ n, ∃ docs, list_predictions (Some n) st = (Ok docs, st)
                    ∧ docs `prefix_of` all).
Proof.
  exists (listing "prediction" "created_at" st). unfold list_predictions.
  rewrite !get_documents_listing. simpl.
  split; [done|]. split; [done|]. split; [apply listing_perm|].
  split; [apply listing_descending|]. split; [|split].
  - intros i j a b s t Hij Hi Hj Ha Hb.
    apply N.leb_le. rewrite <- bson_le_datetime, <- Ha, <- Hb.
    by apply (listing_descending "prediction" "created_at" st i j).
  - intros n Hn. rewrite get_documents_listing.
    destruct (Z.eqb_spec n 0); [lia|]. by rewrite cursor_limit_pos.
  - intros n. rewrite get_documents_listing.
    destruct (n =? 0); eexists; (split; [reflexivity|]);
      [done|apply cursor_limit_prefix].
Qed.

End Listings.

(** ** Creating, counting and clearing *)

Lemma coll_entries st name : coll st name = view <$> entries st name.
Proof. reflexivity. Qed.

Lemma entries_set_entries name l st :
  entries (set_entries name l st) name = l.
Proof. unfold entries, set_entries. simpl. apply lookup_total_insert_eq. Qed.

Lemma entries_set_entries_ne name other l st :
  name ≠ other → entries (set_entries name l st) other = entries st other.
Proof.
  intros Hne. unfold entries, set_entries. simpl.
  by apply lookup_total_insert_ne.
Qed.

Lemma coll_set_entries name l st :
  coll (set_entries name l st) name = view <$> l.
Proof. by rewrite coll_entries, entries_set_entries. Qed.

Lemma coll_set_entries_ne name other l st :
  name ≠ other → coll (set_entries name l st) other = coll st other.
Proof. intros Hne. by rewrite !coll_entries, entries_set_entries_ne. Qed.

Section Counting.
Context {G : Mongo}.

Lemma count_documents_empty name st :
  count_documents name ∅ st = (Ok (List.length (coll st name)), st).
Proof. unfold count_documents. by rewrite filter_matches_empty. Qed.

Lemma test_root_eq st :
  test_root st
  = (Ok (mkStatus true (List.length (coll st "draw"))
                  (List.length (coll st "prediction"))), st).
Proof.
  unfold test_root, bind. by rewrite !count_documents_empty.
Qed.

Lemma unmatched_empty l : unmatched ∅ l = [].
Proof.
  induction l as [|p l IH]; simpl; [done|]. by rewrite matches_empty.
Qed.

Lemma delete_many_empty name st :
  delete_many name ∅ st
  = (Ok (List.length (coll st name)), set_entries name [] st).
Proof.
  unfold delete_many. rewrite unmatched_empty. simpl.
  rewrite coll_entries, length_fmap, Nat.sub_0_r. reflexivity.
Qed.

Lemma find_one_coll name f sort st st' :
  coll st' name = coll st name →
  (find_one name f sort st').1 = (find_one name f sort st).1.
Proof. intros H. rewrite !find_one_eq. simpl. by rewrite H. Qed.

(** X19: [add_draw] has two outcomes. If the store matches some draw to the
    date of the new one, it raises the 409 error and the store stays as it
    is. Otherwise it returns a record that holds the fields of the draw
    and a new identifier, this record is appended to the draws, and the
    predictions are untouched; a following [GET /test] then counts one
    draw more, and a following listing of the draws contains the record. *)
Theorem add_draw_outcome (draw : Draw) (st : db) :
  ((∃ d, d ∈ coll st "draw"
         ∧ matches {["date" := VDate (draw_date draw)]} d = true)
   ∧ add_draw draw st = (Raise conflict, st))
  ∨ ((∀ d, d ∈ coll st "draw" →
           matches {["date" := VDate (draw_date draw)]} d = false)
     ∧ ∃ doc st',
         add_draw draw st = (Ok doc, st')
         ∧ stored_as draw doc
         ∧ doc !! "_id" = Some (VObjectId (next_oid st))
         ∧ coll st' "draw" = coll st "draw" ++ [doc]
         ∧ (∀ other, other ≠ "draw" → coll st' other = coll st other)
         ∧ (∃ s, test_root st' = (Ok s, st')
                 ∧ draws s = S (List.length (coll st "draw"))
                 ∧ predictions s = List.length (coll st "prediction"))
         ∧ ∃ docs, list_draws None st' = (Ok docs, st') ∧ doc ∈ docs).
Proof.
  rewrite add_draw_eq.
  set (f := {["date" := VDate (draw_date draw)]} : doc).
  destruct (List.filter (matches f) (coll st "draw")) as [|x l] eqn:Hf.
  - right. split.
    + intros d Hd. destruct (matches f d) eqn:Hm; [|done].
      assert (Hin : In d (List.filter (matches f) (coll st "draw"))).
      { apply filter_In. split; [by apply list_elem_of_In|done]. }
      rewrite Hf in Hin. destruct Hin.
    + simpl.
      exists (created (Draw_model_dump draw) st),
        (after_create "draw" (Draw_model_dump draw) st).
      split; [done|]. split; [intros k ? ? ?; by apply created_lookup|].
      split; [apply lookup_insert_eq|].
      split; [apply coll_after_create|].
      split; [intros other Hne; by apply coll_after_create_ne|].
      split.
      * eexists. split; [apply test_root_eq|]. simpl.
        rewrite coll_after_create, length_app, coll_after_create_ne by done.
        simpl. split; [lia|done].
      * eexists. split; [reflexivity|]. simpl.
        rewrite cursor_sort_perm.
        unfold or_empty, truthy_dict. rewrite map_size_empty. simpl.
        rewrite filter_matches_empty, coll_after_create.
        apply elem_of_app. right. apply list_elem_of_here.
  - left.
    assert (Hx : In x (List.filter (matches f) (coll st "draw")))
      by (rewrite Hf; by left).
    apply filter_In in Hx as [Hx Hm]. apply list_elem_of_In in Hx.
    split; [by exists x|]. simpl. by rewrite (truthy_coll _ _ _ Hx).
Qed.

End Counting.

Section Clearing.
Context {G : Mongo} {L : MongoLimit}.

Lemma listing_nil name k st : coll st name = [] → listing name k st = [].
Proof. intros H. unfold listing. rewrite H. apply cursor_sort_nil. Qed.

Lemma limited_nil (limit : option Z) :
  match limit with
  | Some n => if n =? 0 then [] else cursor_limit n []
  | None => []
  end = ([] : list doc).
Proof.
  destruct limit as [n|]; [|done]. destruct (n =? 0); [done|].
  pose proof (cursor_limit_prefix n []) as Hp.
  by apply prefix_nil_inv in Hp.
Qed.

(** X20: [DELETE /draws] never fails; the count it returns is the number of
    draws stored before, afterwards no draw is stored and the predictions
    are as before. Then a listing of the draws with any limit is empty,
    [GET /test] counts 0 draws, the insights report that there is no
    latest draw, and a prediction saved next is stored with
    [matched.latest_match] set to [None]. *)
Theorem clear_draws_spec (st : db) :
  ∃ st',
    clear_draws st = (Ok (List.length (coll st "draw")), st')
    ∧ coll st' "draw" = []
    ∧ (∀ other, other ≠ "draw" → coll st' other = coll st other)
    ∧ (∀ limit, list_draws limit st' = (Ok [], st'))
    ∧ (∃ s, test_root st' = (Ok s, st') ∧ draws s = 0%nat
            ∧ predictions s = List.length (coll st "prediction"))
    ∧ latest_insights st' = (Ok NoLatest, st')
    ∧ ∀ pred, ∃ doc st'',
        save_prediction pred st' = (Ok doc, st'')
        ∧ doc !! "matched" = Some (VDict {["latest_match" := VNone]})
        ∧ coll st'' "prediction" = coll st "prediction" ++ [doc].
Proof.
  exists (set_entries "draw" [] st).
  assert (Hd : coll (set_entries "draw" [] st) "draw" = [])
    by apply coll_set_entries.
  assert (Ho : ∀ other, other ≠ "draw" →
                 coll (set_entries "draw" [] st) other = coll st other).
  { intros other Hne. by apply coll_set_entries_ne. }
  destruct (find_latest (set_entries "draw" [] st)) as [Hnone _].
  specialize (Hnone Hd).
  split; [apply delete_many_empty|]. split; [done|]. split; [done|].
  split; [|split; [|split]].
  - intros limit. unfold list_draws. rewrite get_documents_listing.
    rewrite (listing_nil _ _ _ Hd). by rewrite limited_nil.
  - eexists. split; [apply test_root_eq|]. simpl.
    by rewrite Hd, Ho.
  - unfold latest_insights, bind. by rewrite Hnone.
  - intros pred.
    exists (created (prediction_data pred None) (set_entries "draw" [] st)),
      (after_create "prediction" (prediction_data pred None)
         (set_entries "draw" [] st)).
    split; [|split].
    + unfold save_prediction, bind. rewrite Hnone. reflexivity.
    + rewrite created_lookup by done. apply lookup_insert_eq.
    + by rewrite coll_after_create, Ho.
Qed.

(** X21: [DELETE /predictions] never fails; the count it returns is the
    number of predictions stored before, afterwards no prediction is
    stored and the draws are as before. Then a listing of the predictions
    with any limit is empty, and the insights, when a draw is stored,
    report a latest draw with no matching prediction. *)
Theorem clear_predictions_spec (st : db) :
  ∃ st',
    clear_predictions st = (Ok (List.length (coll st "prediction")), st')
    ∧ coll st' "prediction" = []
    ∧ (∀ other, other ≠ "prediction" → coll st' other = coll st other)
    ∧ (∀ limit, list_predictions limit st' = (Ok [], st'))
    ∧ (coll st "draw" ≠ [] →
       ∃ latest, latest ∈ coll st "draw"
                 ∧ latest_insights st'
                   = (Ok (HasLatest (latest !! "date") []), st')).
Proof.
  exists (set_entries "prediction" [] st).
  assert (Hp : coll (set_entries "prediction" [] st) "prediction" = [])
    by apply coll_set_entries.
  assert (Ho : ∀ other, other ≠ "prediction" →
                 coll (set_entries "prediction" [] st) other = coll st other).
  { intros other Hne. by apply coll_set_entries_ne. }
  split; [apply delete_many_empty|]. split; [done|]. split; [done|].
  split.
  - intros limit. unfold list_predictions. rewrite get_documents_listing.
    rewrite (listing_nil _ _ _ Hp). by rewrite limited_nil.
  - intros Hne.
    destruct (find_latest (set_entries "prediction" [] st)) as [_ Hsome].
    rewrite Ho in Hsome by done.
    destruct (Hsome Hne) as (latest & Hfind & Hin & Htruthy & _).
    exists latest. split; [done|].
    unfold latest_insights, bind. rewrite Hfind, Htruthy.
    rewrite find_eq, Hp. simpl. by rewrite cursor_sort_nil.
Qed.

End Clearing.

(** ** Deleting and updating one draw *)

(** The filter [{"_id": ObjectId(n)}]. *)
Definition id_filter (n : N) : doc := {["_id" := VObjectId n]}.

(** A document carries the identifier [n]. *)
Definition has_id (n : N) (d : doc) : Prop := d !! "_id" = Some (VObjectId n).

Lemma view_has_id n p : has_id n (view p) ↔ p.1 = n.
Proof.
  unfold has_id, view. rewrite lookup_insert_eq.
  split; [by intros [= ->]|by intros ->].
Qed.

Lemma Draw_model_dump_fields d k :
  k ∈ Draw_fields ↔ is_Some (Draw_model_dump d !! k).
Proof.
  unfold Draw_fields, Draw_model_dump.
  rewrite !lookup_insert_is_Some, lookup_empty, !elem_of_cons, elem_of_nil.
  split.
  - intros [->|[->|[->|[->|[]]]]]; naive_solver.
  - intros [->|[_ [->|[_ [->|[_ [->|[_ H]]]]]]]]; try tauto.
    by destruct H.
Qed.

Lemma Draw_fields_not k :
  k ∈ Draw_fields → k ≠ "_id" ∧ k ≠ "updated_at" ∧ k ≠ "created_at".
Proof.
  unfold Draw_fields. rewrite !elem_of_cons, elem_of_nil.
  intros [->|[->|[->|[->|[]]]]]; done.
Qed.

Section OneDraw.
Context {G : Mongo} {B : Bson}.

Lemma remove_first_id n l :
  match remove_first (id_filter n) l with
  | Some l' =>
      ∃ before p after,
        l = before ++ p :: after ∧ p.1 = n
        ∧ (∀ q, q ∈ before → q.1 ≠ n) ∧ l' = before ++ after
  | None => ∀ q, q ∈ l → q.1 ≠ n
  end.
Proof.
  induction l as [|p l IH]; simpl.
  - intros q Hq. by apply elem_of_nil in Hq.
  - unfold id_filter at 1. rewrite matches_id.
    destruct (N.eqb_spec p.1 n) as [Heq|Hne].
    + exists [], p, l. split; [done|]. split; [done|]. split; [|done].
      intros q Hq. by apply elem_of_nil in Hq.
    + destruct (remove_first (id_filter n) l) as [l'|].
      * destruct IH as (before & p' & after & -> & Hp' & Hb & ->).
        exists (p :: before), p', after. split; [done|]. split; [done|].
        split; [|done]. intros q [->|Hq]%elem_of_cons; [done|by apply Hb].
      * intros q [->|Hq]%elem_of_cons; [done|by apply IH].
Qed.

Lemma update_first_id n fields l :
  match update_first (id_filter n) fields l with
  | Some (d, l') =>
      ∃ before p after,
        l = before ++ p :: after ∧ p.1 = n
        ∧ (∀ q, q ∈ before → q.1 ≠ n)
        ∧ d = view (p.1, fields ∪ p.2)
        ∧ l' = before ++ (p.1, fields ∪ p.2) :: after
  | None => ∀ q, q ∈ l → q.1 ≠ n
  end.
Proof.
  induction l as [|p l IH]; simpl.
  - intros q Hq. by apply elem_of_nil in Hq.
  - unfold id_filter at 1. rewrite matches_id.
    destruct (N.eqb_spec p.1 n) as [Heq|Hne].
    + exists [], p, l. split; [done|]. split; [done|]. split; [|done].
      intros q Hq. by apply elem_of_nil in Hq.
    + destruct (update_first (id_filter n) fields l) as [[d l']|].
      * destruct IH as (before & p' & after & -> & Hp' & Hb & -> & ->).
        exists (p :: before), p', after. split; [done|]. split; [done|].
        split; [|done]. intros q [->|Hq]%elem_of_cons; [done|by apply Hb].
      * intros q [->|Hq]%elem_of_cons; [done|by apply IH].
Qed.

Lemma no_entry_no_doc n st name :
  (∀ q, q ∈ entries st name → q.1 ≠ n) →
  ∀ d, d ∈ coll st name → ¬ has_id n d.
Proof.
  intros Hno d (p & -> & Hp)%list_elem_of_fmap Hid.
  apply view_has_id in Hid. by apply (Hno p).
Qed.

(** X22: [delete_draw] with a text that is no identifier raises the 400
    error and leaves the store as it is. With an identifier that no stored
    draw carries it returns 0 and leaves the store as it is. Otherwise it
    returns 1 and removes the first draw that carries the identifier, and
    nothing else: the other draws stay, in their order, and so does every
    other collection. *)
Theorem delete_draw_spec (draw_id : string) (st : db) :
  (ObjectId draw_id = None →
   delete_draw draw_id st = (Raise invalid_id, st))
  ∧ ∀ n, ObjectId draw_id = Some (VObjectId n) →
      ((∀ d, d ∈ coll st "draw" → ¬ has_id n d)
       ∧ delete_draw draw_id st = (Ok 0%nat, st))
      ∨ ∃ before d after st',
          coll st "draw" = before ++ d :: after
          ∧ has_id n d
          ∧ (∀ q, q ∈ before → ¬ has_id n q)
          ∧ delete_draw draw_id st = (Ok 1%nat, st')
          ∧ coll st' "draw" = before ++ after
          ∧ ∀ other, other ≠ "draw" → coll st' other = coll st other.
Proof.
  unfold delete_draw. split; [by intros ->|]. intros n ->.
  unfold delete_one. fold (id_filter n).
  pose proof (remove_first_id n (entries st "draw")) as H.
  destruct (remove_first (id_filter n) (entries st "draw")) as [l'|].
  - right. destruct H as (before & p & after & Hl & Hp & Hb & ->).
    exists (view <$> before), (view p), (view <$> after),
      (set_entries "draw" (before ++ after) st).
    split; [by rewrite coll_entries, Hl, fmap_app|].
    split; [by apply view_has_id|]. split.
    { intros q (p' & -> & Hp')%list_elem_of_fmap Hid.
      apply view_has_id in Hid. by apply (Hb p'). }
    split; [done|]. split; [by rewrite coll_set_entries, fmap_app|].
    intros other Hne. by apply coll_set_entries_ne.
  - left. split; [by apply no_entry_no_doc|done].
Qed.

(** The fields [update_draw] sets. *)
Definition update_fields (draw : Draw) (now : N) : doc :=
  <["updated_at" := VDatetime now]> (Draw_model_dump draw).

Lemma update_fields_lookup draw now (old : doc) k :
  (k ∈ Draw_fields →
   (update_fields draw now ∪ old) !! k = Draw_model_dump draw !! k)
  ∧ (k ∉ Draw_fields → k ≠ "updated_at" →
     (update_fields draw now ∪ old) !! k = old !! k)
  ∧ (update_fields draw now ∪ old) !! "updated_at" = Some (VDatetime now).
Proof.
  unfold update_fields. split; [|split].
  - intros Hk. pose proof Hk as [v Hv]%(Draw_model_dump_fields draw).
    destruct (Draw_fields_not k Hk) as (_ & ? & _).
    rewrite Hv. apply lookup_union_Some_l. by rewrite lookup_insert_ne.
  - intros Hk Hne. apply lookup_union_r. rewrite lookup_insert_ne by done.
    apply eq_None_not_Some. by rewrite <- Draw_model_dump_fields.
  - apply lookup_union_Some_l, lookup_insert_eq.
Qed.

(** The state after one reading of the clock. *)
Definition after_now (st : db) : db := (utcnow st).2.

Lemma coll_after_now st name : coll (after_now st) name = coll st name.
Proof. reflexivity. Qed.

Lemma update_draw_found draw_id n draw st before p after :
  ObjectId draw_id = Some (VObjectId n) →
  entries st "draw" = before ++ p :: after →
  p.1 = n → (∀ q, q ∈ before → q.1 ≠ n) →
  update_draw draw_id draw st
  = (Ok (view (p.1, update_fields draw (clock st) ∪ p.2)),
     set_entries "draw"
       (before ++ (p.1, update_fields draw (clock st) ∪ p.2) :: after)
       (after_now st)).
Proof.
  intros Hoid Hl Hp Hb. unfold update_draw. rewrite Hoid.
  unfold bind, utcnow, _now, find_one_and_update. cbn [fst snd].
  fold (id_filter n). fold (update_fields draw (clock st)).
  change (entries (mkDb (collections st) (next_oid st)
                     (clock st + hd 0%N (ticks st))%N (tl (ticks st))) "draw")
    with (entries st "draw").
  pose proof (update_first_id n (update_fields draw (clock st))
                (entries st "draw")) as H.
  destruct (update_first (id_filter n) (update_fields draw (clock st))
              (entries st "draw")) as [[d l']|].
  - destruct H as (before' & p' & after' & Hl' & Hp' & Hb' & -> & ->).
    assert (before' = before ∧ p' = p ∧ after' = after) as (-> & -> & ->).
    { rewrite Hl in Hl'. clear -Hl' Hp Hp' Hb Hb'.
      revert before' Hl' Hb'.
      induction before as [|b before IH]; intros [|b' before'] Hl' Hb';
        simpl in Hl'; injection Hl' as Hhd Htl.
      - done.
      - subst b'. destruct (Hb' p); [apply list_elem_of_here|done].
      - subst b. destruct (Hb p'); [apply list_elem_of_here|done].
      - subst b'.
        destruct (IH (λ q Hq, Hb q (list_elem_of_further _ _ _ Hq))
                    before' Htl
                    (λ q Hq, Hb' q (list_elem_of_further _ _ _ Hq)))
          as (-> & -> & ->).
        done. }
    rewrite truthy_view. reflexivity.
  - destruct (H p); [|done]. rewrite Hl. apply elem_of_app. right.
    apply list_elem_of_here.
Qed.

(** X23: [update_draw] with a text that is no identifier raises the 400
    error and leaves the store as it is. With an identifier that no stored
    draw carries it raises the 404 error and no collection changes.
    Otherwise it returns the first draw that carries the identifier as it
    is after the update: [date], [main], [euro] and [source] are those of
    the request, [updated_at] is the time of the call, and every other
    field, [_id] and [created_at] among them, is as before; this record
    takes the place of the old one in the store and nothing else changes. *)
Theorem update_draw_spec (draw_id : string) (draw : Draw) (st : db) :
  (ObjectId draw_id = None →
   update_draw draw_id draw st = (Raise invalid_id, st))
  ∧ ∀ n, ObjectId draw_id = Some (VObjectId n) →
      ((∀ d, d ∈ coll st "draw" → ¬ has_id n d)
       ∧ ∃ st', update_draw draw_id draw st = (Raise not_found, st')
                ∧ ∀ name, coll st' name = coll st name)
      ∨ ∃ before old after new st',
          coll st "draw" = before ++ old :: after
          ∧ has_id n old
          ∧ (∀ q, q ∈ before → ¬ has_id n q)
          ∧ update_draw draw_id draw st = (Ok new, st')
          ∧ coll st' "draw" = before ++ new :: after
          ∧ (∀ other, other ≠ "draw" → coll st' other = coll st other)
          ∧ (∀ k, k ∈ Draw_fields → new !! k = Draw_model_dump draw !! k)
          ∧ new !! "updated_at" = Some (VDatetime (clock st))
          ∧ (∀ k, k ∉ Draw_fields → k ≠ "updated_at" →
                  new !! k = old !! k).
Proof.
  split; [unfold update_draw; by intros ->|]. intros n Hoid.
  pose proof (remove_first_id n (entries st "draw")) as H.
  destruct (remove_first (id_filter n) (entries st "draw")) as [l'|].
  - right. destruct H as (before & p & after & Hl & Hp & Hb & _).
    exists (view <$> before), (view p), (view <$> after).
    eexists _, _.
    split; [by rewrite coll_entries, Hl, fmap_app|].
    split; [by apply view_has_id|]. split.
    { intros q (p' & -> & Hp')%list_elem_of_fmap Hid.
      apply view_has_id in Hid. by apply (Hb p'). }
    split; [by apply (update_draw_found _ n _ _ before p after)|].
    split; [by rewrite coll_set_entries, fmap_app|].
    split.
    { intros other Hne. by rewrite coll_set_entries_ne, coll_after_now. }
    destruct p as [i old]. simpl.
    split; [|split].
    + intros k Hk. destruct (Draw_fields_not k Hk) as (? & _ & _).
      unfold view. cbn [fst snd]. rewrite lookup_insert_ne by done.
      destruct (update_fields_lookup draw (clock st) old k) as (Hin & _ & _).
      by apply Hin.
    + unfold view. cbn [fst snd]. rewrite lookup_insert_ne by done.
      by destruct (update_fields_lookup draw (clock st) old "date")
        as (_ & _ & ?).
    + intros k Hk Hne. unfold view. cbn [fst snd].
      destruct (decide (k = "_id")) as [->|Hid].
      * by rewrite !lookup_insert_eq.
      * rewrite !lookup_insert_ne by done.
        destruct (update_fields_lookup draw (clock st) old k)
          as (_ & Hout & _).
        by apply Hout.
  - left. split; [by apply no_entry_no_doc|].
    exists (after_now st). split; [|intros name; apply coll_after_now].
    unfold update_draw. rewrite Hoid.
    unfold bind, utcnow, _now, find_one_and_update. cbn [fst snd].
    fold (id_filter n). fold (update_fields draw (clock st)).
    change (entries (mkDb (collections st) (next_oid st)
                       (clock st + hd 0%N (ticks st))%N (tl (ticks st)))
              "draw")
      with (entries st "draw").
    pose proof (update_first_id n (update_fields draw (clock st))
                  (entries st "draw")) as H'.
    destruct (update_first (id_filter n) (update_fields draw (clock st))
                (entries st "draw")) as [[d l']|]; [|done].
    destruct H' as (before & p & after & Hl & Hp & _).
    destruct (H p); [|done]. rewrite Hl. apply elem_of_app. right.
    apply list_elem_of_here.
Qed.

(** X24: [update_draw] does not look at the dates of the other draws: if a
    stored draw other than the one updated carries the date of the
    request, the update succeeds all the same, and afterwards two stored
    draws with different identifiers carry that date. *)
Theorem update_draw_no_date_check (draw_id : string) (n : N) (draw : Draw)
    (st : db) (target other : doc) :
  ObjectId draw_id = Some (VObjectId n) →
  target ∈ coll st "draw" → has_id n target →
  other ∈ coll st "draw" → ¬ has_id n other →
  other !! "date" = Some (VDate (draw_date draw)) →
  ∃ new st',
    update_draw draw_id draw st = (Ok new, st')
    ∧ new ∈ coll st' "draw" ∧ other ∈ coll st' "draw"
    ∧ new !! "_id" ≠ other !! "_id"
    ∧ new !! "date" = Some (VDate (draw_date draw))
    ∧ other !! "date" = Some (VDate (draw_date draw)).
Proof.
  intros Hoid Ht Htid Ho Hoid' Hdate.
  pose proof (remove_first_id n (entries st "draw")) as H.
  destruct (remove_first (id_filter n) (entries st "draw")) as [l'|].
  2: { apply list_elem_of_fmap in Ht as (p & -> & Hp).
       apply view_has_id in Htid. by destruct (H p). }
  destruct H as (before & p & after & Hl & Hp & Hb & _).
  eexists _, _.
  split; [by apply (update_draw_found _ n _ _ before p after)|].
  rewrite coll_set_entries, fmap_app, fmap_cons.
  split; [apply elem_of_app; right; apply list_elem_of_here|].
  split.
  { rewrite coll_entries, Hl, fmap_app, fmap_cons in Ho.
    apply elem_of_app in Ho as [Ho|Ho]; [apply elem_of_app; by left|].
    apply elem_of_cons in Ho as [->|Ho].
    - destruct Hoid'. by apply view_has_id.
    - apply elem_of_app. right. by apply list_elem_of_further. }
  split.
  { unfold view at 1. cbn [fst snd]. rewrite lookup_insert_eq, Hp.
    intros Heq. apply Hoid'. unfold has_id. by rewrite <- Heq. }
  split; [|done].
  unfold view. cbn [fst snd]. rewrite lookup_insert_ne by done.
  destruct (update_fields_lookup draw (clock st) p.2 "date") as (Hin & _ & _).
  rewrite Hin by (unfold Draw_fields; apply list_elem_of_here).
  apply Draw_model_dump_date.
Qed.

End OneDraw.

(** A store with two draws, of 5 and of 12 January 2024. *)
Definition draw_2024_01_12 : Draw :=
  mkDraw (mkdate 2024 1 12) [8; 9; 10; 11; 12] [1; 2] None.

Definition one_draw : db :=
  after_create "draw" (Draw_model_dump draw_2024_01_05) empty_db.

Definition two_draws : db :=
  after_create "draw" (Draw_model_dump draw_2024_01_12) one_draw.

Definition first_id : string := "000000000000000000000000".
Definition second_id : string := "000000000000000000000001".

Lemma update_draw_no_date_check_witness :
  ∃ new st',
    update_draw (G := Reference.mongo) (B := ReferenceIds.bson)
      second_id draw_2024_01_05 two_draws = (Ok new, st')
    ∧ new !! "date" = Some (VDate (mkdate 2024 1 5)).
Proof.
  destruct (update_draw_no_date_check
              (G := Reference.mongo) (B := ReferenceIds.bson)
              second_id 1 draw_2024_01_05 two_draws
              (created (Draw_model_dump draw_2024_01_12) one_draw)
              (created (Draw_model_dump draw_2024_01_05) empty_db))
    as (new & st' & Hrun & _ & _ & _ & Hdate & _).
  - vm_compute. reflexivity.
  - unfold two_draws. rewrite coll_after_create.
    apply elem_of_app. right. apply list_elem_of_here.
  - apply lookup_insert_eq.
  - unfold two_draws, one_draw. rewrite !coll_after_create.
    apply elem_of_app. left. apply elem_of_app. right.
    apply list_elem_of_here.
  - unfold has_id, created. rewrite lookup_insert_eq. intros H.
    vm_compute in H. discriminate H.
  - rewrite created_lookup by done. apply Draw_model_dump_date.
  - exists new, st'. split; [exact Hrun|exact Hdate].
Defined.

Lemma delete_draw_example :
  ∃ st',
    delete_draw (G := Reference.mongo) (B := ReferenceIds.bson)
      first_id two_draws = (Ok 1%nat, st')
    ∧ coll st' "draw" = [created (Draw_model_dump draw_2024_01_12) one_draw]
    ∧ delete_draw (G := Reference.mongo) (B := ReferenceIds.bson)
        first_id st' = (Ok 0%nat, st')
    ∧ delete_draw (G := Reference.mongo) (B := ReferenceIds.bson)
        "first" st' = (Raise invalid_id, st').
Proof.
  eexists. split; [vm_compute; reflexivity|].
  split; [vm_compute; reflexivity|].
  split; vm_compute; reflexivity.
Qed.

(** ** What the handlers leave alone *)

Section Frame.
Context {G : Mongo} {B : Bson}.

Lemma save_prediction_eq pred st :
  save_prediction pred st
  = let stored m :=
      (Ok (created (prediction_data pred m) st),
       after_create "prediction" (prediction_data pred m) st) in
    match head (cursor_sort [("date", -1)]
                  (List.filter (matches ∅) (coll st "draw"))) with
    | Some d =>
        if truthy_dict d
        then match count_matches (Prediction_model_dump pred) d with
             | Ok m => stored (Some m)
             | Raise e => (Raise e, st)
             end
        else stored None
    | None => stored None
    end.
Proof.
  unfold save_prediction, bind. rewrite find_one_eq.
  destruct (head _) as [d|]; [|reflexivity].
  destruct (truthy_dict d); [|reflexivity].
  unfold lift. by destruct (count_matches _ d).
Qed.

(** X25: the reading handlers never write: [GET /test], [GET /draws],
    [GET /predictions] and [GET /insights/latest] leave the store exactly
    as it is, with every limit and also when the insights fail. *)
Theorem read_handlers_keep_store (st : db) :
  (test_root st).2 = st
  ∧ (∀ limit, (list_draws limit st).2 = st)
  ∧ (∀ limit, (list_predictions limit st).2 = st)
  ∧ (latest_insights st).2 = st.
Proof.
  split; [by rewrite test_root_eq|]. split; [done|]. split; [done|].
  unfold latest_insights, bind. rewrite find_one_eq.
  destruct (head _) as [d|]; [|done].
  destruct (truthy_dict d); [|done].
  rewrite find_eq. unfold lift.
  by destruct (insights_loop _ _ _).
Qed.

(** X26: the handlers of the draws never change a stored prediction, and
    the handlers of the predictions never change a stored draw, whatever
    their outcome; so the match a prediction was stored with stays as it
    was when draws are added, updated or deleted later. *)
Theorem collections_are_independent (st : db) :
  (∀ draw, coll (add_draw draw st).2 "prediction" = coll st "prediction")
  ∧ (∀ draw_id draw,
        coll (update_draw draw_id draw st).2 "prediction"
        = coll st "prediction")
  ∧ (∀ draw_id,
        coll (delete_draw draw_id st).2 "prediction" = coll st "prediction")
  ∧ coll (clear_draws st).2 "prediction" = coll st "prediction"
  ∧ (∀ pred, coll (save_prediction pred st).2 "draw" = coll st "draw")
  ∧ coll (clear_predictions st).2 "draw" = coll st "draw".
Proof.
  split; [|split; [|split; [|split; [|split]]]].
  - intros draw. rewrite add_draw_eq. destruct (truthy _); [done|].
    by apply coll_after_create_ne.
  - intros draw_id draw. unfold update_draw.
    destruct (ObjectId draw_id) as [oid|]; [|done].
    unfold bind, utcnow, _now, find_one_and_update.
    destruct (update_first _ _ _) as [[d l]|]; [|done].
    destruct (truthy_dict d); simpl; by rewrite coll_set_entries_ne.
  - intros draw_id. unfold delete_draw.
    destruct (ObjectId draw_id) as [oid|]; [|done].
    unfold delete_one.
    destruct (remove_first _ _) as [l|]; [|done].
    simpl. by rewrite coll_set_entries_ne.
  - unfold clear_draws. rewrite delete_many_empty. simpl.
    by rewrite coll_set_entries_ne.
  - intros pred. rewrite save_prediction_eq.
    destruct (head _) as [d|].
    + destruct (truthy_dict d).
      * destruct (count_matches _ d); [|done].
        by apply coll_after_create_ne.
      * by apply coll_after_create_ne.
    + by apply coll_after_create_ne.
  - unfold clear_predictions. rewrite delete_many_empty. simpl.
    by rewrite coll_set_entries_ne.
Qed.

End Frame.

(** ** Saving a prediction and asking for the insights *)

Lemma prediction_data_numbers pred m :
  prediction_data pred m !! "main" = Some (int_list_value (pred_main pred))
  ∧ prediction_data pred m !! "euro"
    = Some (int_list_value (pred_euro pred)).
Proof.
  unfold prediction_data. rewrite !lookup_insert_ne by done.
  apply Prediction_model_dump_numbers.
Qed.

Section SaveThenInsights.
Context {G : Mongo}.

(** X27: on a store with draws, whose draws and predictions carry integer
    lists, [save_prediction] returns; the match it stores with the
    prediction is the one of the prediction against the latest draw, and
    the insights asked for next take the same draw and, when that match
    has a positive total, list the new prediction under its identifier
    with exactly that match. Every prediction they list has a positive
    total. *)
Theorem save_prediction_then_insights (pred : Prediction) (st : db) :
  coll st "draw" ≠ [] →
  Forall numbers_doc (coll st "draw") →
  Forall numbers_doc (coll st "prediction") →
  ∃ latest m doc st' preds,
    latest ∈ coll st "draw"
    ∧ count_matches (Prediction_model_dump pred) latest = Ok m
    ∧ save_prediction pred st = (Ok doc, st')
    ∧ doc !! "_id" = Some (VObjectId (next_oid st))
    ∧ doc !! "matched"
      = Some (VDict {["latest_match" := MatchResult_value m]})
    ∧ latest_insights st' = (Ok (HasLatest (latest !! "date") preds), st')
    ∧ ((0 < m_total m)%nat → (VObjectId (next_oid st), m) ∈ preds)
    ∧ ∀ i x, (i, x) ∈ preds → (0 < m_total x)%nat.
Proof.
  intros Hne Hdraws Hpreds.
  destruct (find_latest st) as [_ Hsome].
  destruct (Hsome Hne) as (latest & Hfind & Hin & Htruthy & _).
  assert (Hlatest : numbers_doc latest)
    by (eapply Forall_forall in Hdraws; eauto).
  destruct Hlatest as (dm & de & Hdm & Hde).
  destruct (Prediction_model_dump_numbers pred) as [Hpm Hpe].
  pose proof (count_matches_lists _ _ _ _ _ _ Hpm Hdm Hpe Hde) as Hm.
  set (m := mkMatch _ _ _) in Hm.
  set (data := prediction_data pred (Some m)).
  set (doc := created data st).
  set (st' := after_create "prediction" data st).
  set (preds := cursor_sort [("created_at", -1)] (coll st' "prediction")).
  exists latest, m, doc, st', (omap (emitted latest) preds).
  assert (Hdoc : count_matches doc latest = Ok m).
  { destruct (prediction_data_numbers pred (Some m)) as [Hm1 Hm2].
    apply (count_matches_lists doc latest (pred_main pred) dm
             (pred_euro pred) de); [|done| |done].
    - unfold doc. by rewrite created_lookup.
    - unfold doc. by rewrite created_lookup. }
  assert (Hid : doc !! "_id" = Some (VObjectId (next_oid st)))
    by apply lookup_insert_eq.
  split; [done|]. split; [done|]. split.
  { unfold save_prediction, bind. rewrite Hfind, Htruthy, Hm. reflexivity. }
  split; [done|]. split.
  { unfold doc. rewrite created_lookup by done. apply lookup_insert_eq. }
  assert (Hfind' : find_one "draw" ∅ (Some [("date", -1)]) st'
                   = (Ok (Some latest), st')).
  { rewrite find_one_eq in Hfind |- *. unfold st'.
    rewrite coll_after_create_ne by done.
    injection Hfind as ->. reflexivity. }
  assert (Hperm : preds ≡ₚ coll st "prediction" ++ [doc]).
  { unfold preds, st'. by rewrite cursor_sort_perm, coll_after_create. }
  split; [|split].
  - unfold latest_insights, bind. rewrite Hfind', Htruthy.
    rewrite find_eq, filter_matches_empty. fold preds.
    rewrite insights_loop_emitted; [reflexivity|].
    apply Forall_forall. intros p Hp. rewrite Hperm in Hp.
    apply elem_of_app in Hp as [Hp|Hp].
    + split.
      * apply count_matches_numbers; [|by exists dm, de].
        by eapply Forall_forall in Hpreds.
      * destruct (coll_has_id _ _ _ Hp) as [i Hi]. eauto.
    + apply list_elem_of_singleton in Hp as ->. split; eauto.
  - intros Hpos. apply list_elem_of_omap. exists doc. split.
    + rewrite Hperm. apply elem_of_app. right. apply list_elem_of_here.
    + unfold emitted. rewrite Hdoc, Hid.
      by destruct (Nat.ltb_spec 0 (m_total m)); [|lia].
  - intros i x (p & _ & He)%list_elem_of_omap. unfold emitted in He.
    destruct (count_matches p latest) as [m'|]; [|done].
    destruct (p !! "_id"); [|done].
    destruct (Nat.ltb_spec 0 (m_total m')); [|done].
    by injection He as _ <-.
Qed.

End SaveThenInsights.

Lemma save_prediction_then_insights_witness :
  ∃ doc st' date preds,
    save_prediction (G := Reference.mongo) example_pred one_draw
    = (Ok doc, st')
    ∧ latest_insights (G := Reference.mongo) st'
      = (Ok (HasLatest date preds), st').
Proof.
  destruct (save_prediction_then_insights (G := Reference.mongo)
              example_pred one_draw)
    as (latest & m & doc & st' & preds & _ & _ & Hsave & _ & _ & Hins & _).
  - unfold one_draw. rewrite coll_after_create.
    intros H. symmetry in H. by apply app_cons_not_nil in H.
  - unfold one_draw. rewrite coll_after_create. apply Forall_app.
    split; [constructor|]. constructor; [|constructor].
    apply numbers_created_draw.
  - constructor.
  - exists doc, st', (latest !! "date"), preds.
    split; [exact Hsave|exact Hins].
Defined.
